(** * ValueGlance: the quote pipeline of [src/App.tsx]

    A shallow embedding of the decision logic of the stock dashboard:
    the symbol normaliser ([parseSymbols]), the per-symbol quote
    classification and the refresh cycle ([fetchStocks]), the sort state
    ([handleSort]) and the row sorter ([sortedRows]).

    Conventions of the model.
    - A JavaScript string is a [string]: a sequence of 8-bit characters.
      The model covers ASCII text; the built-ins [trim] and [toUpperCase]
      are modelled on the ASCII range.
    - A JavaScript number is a [number]: NaN, an infinity, or the exact
      decimal a literal denotes (binary64 rounding is not modelled).
    - A thrown exception is a value of [thrown]; code that may throw
      returns a [result].
    - The network, the clock and the API key are the environment [env];
      what a cycle does to the outside is recorded in a [world].
    - Arrays that are sorted in place live in a store of arrays. *)

From Stdlib Require Import ZArith QArith Ascii String Bool Lia.
From Stdlib Require Import DecimalString.
From stdpp Require Import base list sorting gmap strings.

Local Open Scope string_scope.
Local Open Scope list_scope.

(** ** Built-in string operations *)

Module JsString.

(** [String.prototype.split] with a one-character separator. *)
Fixpoint split (sep : ascii) (s : string) : list string :=
  match s with
  | EmptyString => [EmptyString]
  | String c s' =>
      if Ascii.eqb c sep then EmptyString :: split sep s'
      else match split sep s' with
           | p :: ps => String c p :: ps
           | [] => [String c EmptyString]
           end
  end.

(** White space and line terminators of the ASCII range:
    TAB, LF, VT, FF, CR and SPACE. *)
Definition is_white_space (c : ascii) : bool :=
  let n := N_of_ascii c in
  ((9 <=? n)%N && (n <=? 13)%N) || (n =? 32)%N.

Fixpoint trimStart (s : string) : string :=
  match s with
  | EmptyString => EmptyString
  | String c s' => if is_white_space c then trimStart s' else s
  end.

Fixpoint trimEnd (s : string) : string :=
  match s with
  | EmptyString => EmptyString
  | String c s' =>
      match trimEnd s' with
      | EmptyString => if is_white_space c then EmptyString else String c EmptyString
      | t => String c t
      end
  end.

Definition trim (s : string) : string := trimEnd (trimStart s).

Definition upper_char (c : ascii) : ascii :=
  let n := N_of_ascii c in
  if ((97 <=? n)%N && (n <=? 122)%N)%bool then ascii_of_N (n - 32) else c.

Fixpoint toUpperCase (s : string) : string :=
  match s with
  | EmptyString => EmptyString
  | String c s' => String (upper_char c) (toUpperCase s')
  end.

(** Truthiness of a string, as [filter(Boolean)] and [||] read it. *)
Definition truthy (s : string) : bool :=
  match s with EmptyString => false | _ => true end.

(** [s.replace(pat, "")] for a one-character pattern: the first
    occurrence is removed, later ones stay. *)
Fixpoint remove_first (pat : ascii) (s : string) : string :=
  match s with
  | EmptyString => EmptyString
  | String c s' => if Ascii.eqb c pat then s' else String c (remove_first pat s')
  end.

Fixpoint contains (c : ascii) (s : string) : bool :=
  match s with
  | EmptyString => false
  | String d s' => Ascii.eqb d c || contains c s'
  end.

(** The relational operator [<] on two strings: code units compare
    from left to right, a proper prefix comes first. *)
Fixpoint lt (s t : string) : bool :=
  match s, t with
  | _, EmptyString => false
  | EmptyString, String _ _ => true
  | String a s', String b t' =>
      if (N_of_ascii a <? N_of_ascii b)%N then true
      else if (N_of_ascii a =? N_of_ascii b)%N then lt s' t'
      else false
  end.

Definition hex_digit (n : N) : ascii :=
  if (n <? 10)%N then ascii_of_N (48 + n) else ascii_of_N (55 + n).

(** Characters [encodeURIComponent] leaves as they are. *)
Definition uri_unreserved (c : ascii) : bool :=
  let n := N_of_ascii c in
  ((65 <=? n)%N && (n <=? 90)%N) || ((97 <=? n)%N && (n <=? 122)%N)
  || ((48 <=? n)%N && (n <=? 57)%N)
  || existsb (Ascii.eqb c)
       ["-"; "_"; "."; "!"; "~"; "*"; "'"; "("; ")"]%char.

Fixpoint encodeURIComponent (s : string) : string :=
  match s with
  | EmptyString => EmptyString
  | String c s' =>
      if uri_unreserved c then String c (encodeURIComponent s')
      else
        let n := N_of_ascii c in
        String "%" (String (hex_digit (n / 16)) (String (hex_digit (n mod 16))
          (encodeURIComponent s')))
  end.

End JsString.

(** ** Symbol normaliser *)

(** [parseSymbols], lines 35-39; the closure variable [symbolsInput] is
    the argument. *)
Definition parseSymbols (symbolsInput : string) : list string :=
  filter (fun s => Is_true (JsString.truthy s))
    (map (fun s => JsString.toUpperCase (JsString.trim s))
       (JsString.split "," symbolsInput)).

(** A piece of the input: a string with no comma in it. *)
Definition comma_free (p : string) : Prop := JsString.contains "," p = false.

(** ** Numbers *)

Module JsNumber.

(** The decimal [mantissa * 10 ^ exponent]. *)
Record decimal := Dec { mantissa : Z; exponent : Z }.

Inductive number :=
| NaN
| Infinity (negative : bool)
| Finite (d : decimal).

Definition dec_to_Q (d : decimal) : Q :=
  inject_Z (mantissa d) * Qpower (10 # 1) (exponent d).

Definition dec_neg (d : decimal) : decimal :=
  Dec (- mantissa d) (exponent d).

Definition neg (x : number) : number :=
  match x with
  | NaN => NaN
  | Infinity s => Infinity (negb s)
  | Finite d => Finite (dec_neg d)
  end.

(** The relational operator [<] on two numbers; a comparison with NaN
    is false. *)
Definition lt (x y : number) : bool :=
  match x, y with
  | NaN, _ | _, NaN => false
  | Infinity true, Infinity true => false
  | Infinity true, _ => true
  | _, Infinity true => false
  | Infinity false, _ => false
  | Finite _, Infinity false => true
  | Finite a, Finite b =>
      match Qcompare (dec_to_Q a) (dec_to_Q b) with Lt => true | _ => false end
  end.

Definition digit_val (c : ascii) : option Z :=
  let n := N_of_ascii c in
  if ((48 <=? n)%N && (n <=? 57)%N)%bool then Some (Z.of_N n - 48)%Z else None.

(** Reads the longest run of decimal digits at the head of [s]: the
    value of [acc] followed by those digits, how many were read, and the
    rest of the string. *)
Fixpoint read_digits (acc count : Z) (s : string) : Z * Z * string :=
  match s with
  | EmptyString => (acc, count, s)
  | String c s' =>
      match digit_val c with
      | Some d => read_digits (10 * acc + d)%Z (count + 1)%Z s'
      | None => (acc, count, s)
      end
  end.

(** The value of an ExponentPart at the head of [s], 0 when there is no
    complete one. *)
Definition read_exponent (s : string) : Z :=
  match s with
  | String c s' =>
      if (Ascii.eqb c "e" || Ascii.eqb c "E")%bool then
        let '(negative, ds) :=
          match s' with
          | String "+" t => (false, t)
          | String "-" t => (true, t)
          | _ => (false, s')
          end in
        let '(v, n, _) := read_digits 0 0 ds in
        if (n =? 0)%Z then 0%Z else if negative then (- v)%Z else v
      else 0%Z
  | EmptyString => 0%Z
  end.

(** The longest prefix of [s] that is a StrUnsignedDecimalLiteral. *)
Definition parse_unsigned (s : string) : option number :=
  if String.prefix "Infinity" s then Some (Infinity false)
  else
    let '(ip, n1, r1) := read_digits 0 0 s in
    match r1 with
    | String "." r2 =>
        let '(m, n2, r3) := read_digits ip 0 r2 in
        if ((n1 =? 0)%Z && (n2 =? 0)%Z)%bool then None
        else Some (Finite (Dec m (read_exponent r3 - n2)))
    | _ =>
        if (n1 =? 0)%Z then None
        else Some (Finite (Dec ip (read_exponent r1)))
    end.

(** [parseFloat] on a string. *)
Definition parseFloat (s : string) : number :=
  let t := JsString.trimStart s in
  let r :=
    match t with
    | String "+" u => parse_unsigned u
    | String "-" u => option_map neg (parse_unsigned u)
    | _ => parse_unsigned t
    end in
  match r with Some x => x | None => NaN end.

Fixpoint strip_trailing_zeros (s : string) : string * Z :=
  match s with
  | EmptyString => (EmptyString, 0%Z)
  | String c s' =>
      match strip_trailing_zeros s' with
      | (EmptyString, k) =>
          if Ascii.eqb c "0" then (EmptyString, (k + 1)%Z)
          else (String c EmptyString, k)
      | (t, k) => (String c t, k)
      end
  end.

Fixpoint zeros (n : nat) : string :=
  match n with O => EmptyString | S n' => String "0" (zeros n') end.

Definition digits_of_Z (z : Z) : string :=
  NilZero.string_of_uint (N.to_uint (Z.to_N z)).

(** [Number::toString] in radix 10 on a decimal. *)
Definition dec_to_string (d : decimal) : string :=
  if (mantissa d =? 0)%Z then "0"
  else
    let sign := if (mantissa d <? 0)%Z then "-" else "" in
    let '(ds, dropped) := strip_trailing_zeros (digits_of_Z (Z.abs (mantissa d))) in
    let k := Z.of_nat (String.length ds) in
    let n := (k + exponent d + dropped)%Z in
    let body :=
      if ((k <=? n)%Z && (n <=? 21)%Z)%bool then ds +:+ zeros (Z.to_nat (n - k))
      else if ((0 <? n)%Z && (n <=? 21)%Z)%bool then
        substring 0 (Z.to_nat n) ds +:+ "." +:+
        substring (Z.to_nat n) (Z.to_nat (k - n)) ds
      else if ((-6 <? n)%Z && (n <=? 0)%Z)%bool then
        "0." +:+ zeros (Z.to_nat (- n)) +:+ ds
      else
        let e := (n - 1)%Z in
        let es := (if (e <? 0)%Z then "-" else "+") +:+ digits_of_Z (Z.abs e) in
        match ds with
        | String c EmptyString => String c EmptyString +:+ "e" +:+ es
        | String c rest => String c EmptyString +:+ "." +:+ rest +:+ "e" +:+ es
        | EmptyString => EmptyString
        end in
    sign +:+ body.

End JsNumber.

(** ** Parsed JSON and JavaScript values *)

(** What [res.json()] resolves to. An object holds its own properties
    in insertion order, one entry per key. *)
#[warnings="-register-all"]
Inductive json :=
| JNull
| JBool (b : bool)
| JNum (d : JsNumber.decimal)
| JStr (s : string)
| JArr (items : list json)
| JObj (fields : list (string * json)).

(** A value read from a property: [None] is [undefined]. *)
Definition value := option json.

(** A thrown value: an [Error] object with its message, or anything
    else ([err instanceof Error] tells them apart, line 127). *)
Inductive thrown :=
| ErrorObject (message : string)
| NonError.

Inductive result (A : Type) :=
| Ok (a : A)
| Throw (e : thrown).
Arguments Ok {A} a.
Arguments Throw {A} e.

Definition bind {A B : Type} (r : result A) (k : A -> result B) : result B :=
  match r with
  | Ok a => k a
  | Throw e => Throw e
  end.

Notation "'do' x <- r ; k" := (bind r (fun x => k))
  (at level 10, x name, r at level 100, k at level 200).

Fixpoint lookup_field (key : string) (fields : list (string * json)) : value :=
  match fields with
  | [] => None
  | (k, v) :: rest => if String.eqb k key then Some v else lookup_field key rest
  end.

Definition TypeError_read (of_what key : string) : thrown :=
  ErrorObject ("Cannot read properties of " +:+ of_what +:+ " (reading '" +:+ key +:+ "')").

(** [o[key]] for the property names of the source (Note, Information,
    Error Message, Global Quote, 05. price, 10. change percent): none of
    them is a property of a primitive, of an array or of
    [Object.prototype], so only an object's own entries answer.
    Reading a property of [null] or [undefined] throws a TypeError. *)
Definition get_property (o : value) (key : string) : result value :=
  match o with
  | None => Throw (TypeError_read "undefined" key)
  | Some JNull => Throw (TypeError_read "null" key)
  | Some (JObj fields) => Ok (lookup_field key fields)
  | Some _ => Ok None
  end.

(** [typeof v === "string"]. *)
Definition typeof_string (v : value) : bool :=
  match v with
  | Some (JStr _) => true
  | _ => false
  end.

(** ToBoolean. *)
Definition truthy (v : value) : bool :=
  match v with
  | None | Some JNull => false
  | Some (JBool b) => b
  | Some (JNum d) => negb (JsNumber.mantissa d =? 0)%Z
  | Some (JStr s) => JsString.truthy s
  | Some (JArr _) | Some (JObj _) => true
  end.

(** [Object.keys(v).length] for a value that is not null or undefined:
    the entries of an object, the indices of an array or of a string,
    nothing for a number or a boolean. *)
Definition keys_length (v : json) : nat :=
  match v with
  | JObj fields => length fields
  | JArr items => length items
  | JStr s => String.length s
  | JNull | JBool _ | JNum _ => 0
  end.

(** ToString, as [parseFloat] applies it to its argument. *)
Fixpoint ToString (v : json) : string :=
  match v with
  | JNull => "null"
  | JBool b => if b then "true" else "false"
  | JNum d => JsNumber.dec_to_string d
  | JStr s => s
  | JArr items =>
      String.concat ","
        (map (fun x => match x with JNull => EmptyString | _ => ToString x end) items)
  | JObj _ => "[object Object]"
  end.

(** ** Rows and application state *)

Inductive Status := StatusOk | RateLimited | StatusError | NoData.

Record StockRow := Row {
  symbol : string;
  price : option JsNumber.number;
  changePercent : option JsNumber.number;
  status : Status
}.

Inductive SortKey := BySymbol | ByPrice | ByChangePercent.

Inductive SortDir := asc | desc.

#[global] Instance SortKey_eq_dec : EqDecision SortKey.
Proof. solve_decision. Defined.

#[global] Instance SortDir_eq_dec : EqDecision SortDir.
Proof. solve_decision. Defined.

#[global] Instance Status_eq_dec : EqDecision Status.
Proof. solve_decision. Defined.

(** The [useState] cells of [App], lines 18-32. *)
Record AppState := State {
  symbolsInput : string;
  rows : list StockRow;
  loading : bool;
  error : option string;
  sortKey : SortKey;
  sortDir : SortDir;
  lastUpdated : option Z
}.

Definition setRows (v : list StockRow) (st : AppState) : AppState :=
  State (symbolsInput st) v (loading st) (error st) (sortKey st) (sortDir st) (lastUpdated st).

Definition setLoading (v : bool) (st : AppState) : AppState :=
  State (symbolsInput st) (rows st) v (error st) (sortKey st) (sortDir st) (lastUpdated st).

Definition setError (v : option string) (st : AppState) : AppState :=
  State (symbolsInput st) (rows st) (loading st) v (sortKey st) (sortDir st) (lastUpdated st).

Definition setSortKey (v : SortKey) (st : AppState) : AppState :=
  State (symbolsInput st) (rows st) (loading st) (error st) v (sortDir st) (lastUpdated st).

Definition setSortDir (v : SortDir) (st : AppState) : AppState :=
  State (symbolsInput st) (rows st) (loading st) (error st) (sortKey st) v (lastUpdated st).

Definition setLastUpdated (v : option Z) (st : AppState) : AppState :=
  State (symbolsInput st) (rows st) (loading st) (error st) (sortKey st) (sortDir st) v.

(** The state [App] mounts with; [DEFAULT_SYMBOLS.join(", ")] is AAPL. *)
Definition initial_state : AppState :=
  State "AAPL" [] false None BySymbol asc None.

(** ** Quote classification *)

Definition ToString_value (v : value) : string :=
  match v with
  | None => "undefined"
  | Some j => ToString j
  end.

(** [v || d]. *)
Definition or_else (v : value) (d : json) : json :=
  match v with
  | Some j => if truthy v then j else d
  | None => d
  end.

Definition TypeError_not_a_function : thrown :=
  ErrorObject "(intermediate value).replace is not a function".

(** [v.replace("%", "")]: only a string has the method. *)
Definition replace_percent (v : json) : result string :=
  match v with
  | JStr s => Ok (JsString.remove_first "%" s)
  | _ => Throw TypeError_not_a_function
  end.

(** Lines 72-75: [typeof data.Note === "string" ||
    typeof data.Information === "string"]. *)
Definition rate_limit_note (data : json) : result bool :=
  do note <- get_property (Some data) "Note";
  if typeof_string note then Ok true
  else
    do information <- get_property (Some data) "Information";
    Ok (typeof_string information).

(** Lines 72-120 of the loop body: from the parsed body [data] to the
    row that is pushed for [symbol]. *)
Definition classify (symbol : string) (data : json) : result StockRow :=
  do throttled <- rate_limit_note data;
  if throttled then Ok (Row symbol None None RateLimited)
  else
    do errorMessage <- get_property (Some data) "Error Message";
    if truthy errorMessage then Ok (Row symbol None None StatusError)
    else
      do quote <- get_property (Some data) "Global Quote";
      let looksEmpty :=
        negb (truthy quote) &&
        (keys_length (if truthy (Some data) then data else JObj []) =? 0)%nat in
      do priceField <-
        (if truthy quote then get_property quote "05. price" else Ok None);
      if negb (truthy quote) || negb (truthy priceField) then
        Ok (Row symbol None None (if looksEmpty then RateLimited else NoData))
      else
        do changeField <- get_property quote "10. change percent";
        do stripped <- replace_percent (or_else changeField (JStr "0"));
        Ok (Row symbol
              (Some (JsNumber.parseFloat (ToString_value priceField)))
              (Some (JsNumber.parseFloat stripped))
              StatusOk).

(** [data[key]] for a body that is not [null]: the read cannot throw. *)
Definition field (data : json) (key : string) : value :=
  match data with
  | JObj fields => lookup_field key fields
  | _ => None
  end.



(** *** The decision order in the words of the specification

    Kept apart from [classify], to compare the two: a field counts when
    it is present, the body is empty when it is the empty object, and
    a percent sign is stripped at the end of the change-percent field. *)

Definition has_field (data : json) (key : string) : bool :=
  match field data key with
  | Some _ => true
  | None => false
  end.

Fixpoint strip_trailing_percent (s : string) : string :=
  match s with
  | EmptyString => EmptyString
  | String c EmptyString => if Ascii.eqb c "%" then EmptyString else s
  | String c s' => String c (strip_trailing_percent s')
  end.

Definition spec_classify (symbol : string) (data : json) : StockRow :=
  let missing :=
    Row symbol None None
      (match data with JObj [] => RateLimited | _ => NoData end) in
  if typeof_string (field data "Note") || typeof_string (field data "Information")
  then Row symbol None None RateLimited
  else if has_field data "Error Message" then Row symbol None None StatusError
  else
    match field data "Global Quote" with
    | None => missing
    | Some quote =>
        match field quote "05. price" with
        | None => missing
        | Some p =>
            Row symbol
              (Some (JsNumber.parseFloat (ToString p)))
              (Some (match field quote "10. change percent" with
                     | Some c =>
                         JsNumber.parseFloat (strip_trailing_percent (ToString c))
                     | None => JsNumber.Finite (JsNumber.Dec 0 0)
                     end))
              StatusOk
        end
    end.


(** ** The refresh cycle *)

(** What the cycle does to the outside: the URLs requested, in order,
    and the [console.log] calls of line 69. *)
Record world := World {
  requests : list string;
  console : list (string * json)
}.

Definition empty_world : world := World [] [].

Inductive json_outcome :=
| Parsed (data : json)
| JsonRejects (e : thrown).

(** How [await fetch(url)] ends: the promise rejects (a network
    failure), or resolves to a response with its [ok] flag and what
    [res.json()] will give. *)
Inductive fetch_outcome :=
| Rejects (e : thrown)
| Resolves (res_ok : bool) (body : json_outcome).

(** The environment of one cycle: the API key, the network (the answer
    to a request may depend on how many requests came before it) and the
    clock read by [new Date()]. *)
Record env := Env {
  API_KEY : string;
  network : nat -> string -> fetch_outcome;
  now : Z
}.

(** Computations of the loop body: they read and extend the [world] and
    may throw. *)
Definition M (A : Type) : Type := world -> result A * world.

Definition ret {A : Type} (a : A) : M A := fun w => (Ok a, w).

Definition throw {A : Type} (e : thrown) : M A := fun w => (Throw e, w).

Definition mbind {A B : Type} (m : M A) (k : A -> M B) : M B :=
  fun w =>
    match m w with
    | (Ok a, w') => k a w'
    | (Throw e, w') => (Throw e, w')
    end.

Notation "'let*' x := m 'in' k" := (mbind m (fun x => k))
  (at level 10, x name, m at level 100, k at level 200).

Definition lift {A : Type} (r : result A) : M A := fun w => (r, w).

Definition fetch (e : env) (url : string) : M (bool * json_outcome) :=
  fun w =>
    let w' := World (requests w ++ [url]) (console w) in
    match network e (length (requests w)) url with
    | Rejects err => (Throw err, w')
    | Resolves res_ok body => (Ok (res_ok, body), w')
    end.

Definition res_json (body : json_outcome) : M json :=
  match body with
  | Parsed data => ret data
  | JsonRejects err => throw err
  end.

Definition console_log (symbol : string) (data : json) : M unit :=
  fun w => (Ok tt, World (requests w) (console w ++ [(symbol, data)])).

Definition quote_url (e : env) (symbol : string) : string :=
  "https://www.alphavantage.co/query?function=GLOBAL_QUOTE&symbol="
  +:+ JsString.encodeURIComponent symbol +:+ "&apikey=" +:+ API_KEY e.

(** The body of the [for] loop, lines 52-120: the row pushed for
    [symbol], or the exception that leaves the loop. *)
Definition fetch_symbol (e : env) (symbol : string) : M StockRow :=
  let* res := fetch e (quote_url e symbol) in
  if negb (fst res) then ret (Row symbol None None StatusError)
  else
    let* data := res_json (snd res) in
    let* _ := console_log symbol data in
    lift (classify symbol data).

(** The [for] loop, lines 51-121, with the [results] array so far. *)
Fixpoint fetch_loop (e : env) (symbols : list string) (results : list StockRow)
  : M (list StockRow) :=
  match symbols with
  | [] => ret results
  | symbol :: rest =>
      let* row := fetch_symbol e symbol in
      fetch_loop e rest (results ++ [row])
  end.

Definition error_message (err : thrown) : string :=
  match err with
  | ErrorObject message => message
  | NonError => "Unexpected error"
  end.

(** [fetchStocks], lines 41-132: the state after the cycle and what the
    cycle did to the outside. *)
Definition fetchStocks (e : env) (st : AppState) : AppState * world :=
  let symbols := parseSymbols (symbolsInput st) in
  if (length symbols =? 0)%nat then (st, empty_world)
  else
    let st1 := setError None (setLoading true st) in
    let '(outcome, w) := fetch_loop e symbols [] empty_world in
    let st2 :=
      match outcome with
      | Ok results => setLastUpdated (Some (now e)) (setRows results st1)
      | Throw err => setError (Some (error_message err)) st1
      end in
    (setLoading false st2, w).

(** The invariant of a row: [price] and [changePercent] are both set
    or both unset, and both unset unless the status is ok. *)
Definition row_invariant (r : StockRow) : Prop :=
  (price r = None <-> changePercent r = None)
  /\ (status r <> StatusOk -> price r = None /\ changePercent r = None).

(** The state a cycle leaves when an exception [err] reaches the
    [catch] of line 126 from the state [st]. *)
Definition aborted (err : thrown) (st : AppState) : AppState :=
  State (symbolsInput st) (rows st) false (Some (error_message err))
    (sortKey st) (sortDir st) (lastUpdated st).

(** The state a cycle leaves when the loop completes with [results]. *)
Definition committed (e : env) (results : list StockRow) (st : AppState) : AppState :=
  State (symbolsInput st) results false None
    (sortKey st) (sortDir st) (Some (now e)).

(** A quote body as the provider sends it. *)
Definition quote_body : json :=
  JObj [("Global Quote",
         JObj [("05. price", JStr "123.45"); ("10. change percent", JStr "1.23%")])].

(** An environment in which the request with index [k] meets [bad] and
    every other request is answered with [quote_body]. *)
Definition env_with (k : nat) (bad : fetch_outcome) : env :=
  Env "demo"
    (fun n _ => if (n =? k)%nat then bad else Resolves true (Parsed quote_body))
    1700000000000.

(** A state after an earlier cycle, with A, B, C typed in. *)
Definition state_ABC : AppState :=
  State "A, B, C"
    [Row "OLD" (Some (JsNumber.Finite (JsNumber.Dec 7 0)))
       (Some (JsNumber.Finite (JsNumber.Dec 0 0))) StatusOk]
    false None BySymbol asc (Some 1600000000000%Z).

Definition zero : JsNumber.number := JsNumber.Finite (JsNumber.Dec 0 0).

(** Rows to sort: a null price, a positive, a negative and a zero one,
    and a second null one. *)
Definition sample_rows : list StockRow :=
  [Row "MSFT" (Some (JsNumber.Finite (JsNumber.Dec 3 0))) (Some zero) StatusOk;
   Row "ZZZZ" None None NoData;
   Row "IBM" (Some (JsNumber.Finite (JsNumber.Dec (-15) (-1)))) (Some zero) StatusOk;
   Row "AAPL" (Some (JsNumber.Finite (JsNumber.Dec 0 2))) (Some zero) StatusOk;
   Row "QQQ" None None RateLimited].

(** ** Sort state and row sorter *)

(** [handleSort], lines 140-147. *)
Definition handleSort (key : SortKey) (st : AppState) : AppState :=
  if decide (key = sortKey st) then
    setSortDir (match sortDir st with asc => desc | desc => asc end) st
  else setSortDir asc (setSortKey key st).

(** [Array.prototype.sort] with a comparator, as a stable insertion
    sort: an element moves right past the elements the comparator puts
    strictly before it. The language requires the sort to be stable;
    when no two elements tie, every sorting procedure gives this result
    (the strictly ordered arrangement is unique). *)
Section ArraySort.
Context {A : Type} (compareFn : A -> A -> Z).

Fixpoint sort_insert (x : A) (l : list A) : list A :=
  match l with
  | [] => [x]
  | y :: l' => if (0 <? compareFn x y)%Z then y :: sort_insert x l' else x :: l
  end.

Fixpoint sort (l : list A) : list A :=
  match l with
  | [] => []
  | x :: l' => sort_insert x (sort l')
  end.



End ArraySort.

(** ToNumber on a [number | null] field: [null] is +0. *)
Definition ToNumber (v : option JsNumber.number) : JsNumber.number :=
  match v with
  | Some n => n
  | None => JsNumber.Finite (JsNumber.Dec 0 0)
  end.

(** [a[sortKey] < b[sortKey]]: two strings compare by code units, two
    [number | null] values compare as numbers. *)
Definition key_lt (key : SortKey) (a b : StockRow) : bool :=
  match key with
  | BySymbol => JsString.lt (symbol a) (symbol b)
  | ByPrice => JsNumber.lt (ToNumber (price a)) (ToNumber (price b))
  | ByChangePercent =>
      JsNumber.lt (ToNumber (changePercent a)) (ToNumber (changePercent b))
  end.

(** The comparator of lines 149-156; [av > bv] is [bv < av]. *)
Definition compareRows (key : SortKey) (dirn : SortDir) (a b : StockRow) : Z :=
  (let dir := match dirn with asc => 1 | desc => -1 end in
  if key_lt key a b then -1 * dir
  else if key_lt key b a then 1 * dir
  else 0)%Z.

(** The value of [sortedRows] for given [rows], [sortKey], [sortDir]. *)
Definition sortedRows (key : SortKey) (dirn : SortDir) (rows : list StockRow)
  : list StockRow :=
  sort (compareRows key dirn) rows.

Definition flip (d : SortDir) : SortDir :=
  match d with asc => desc | desc => asc end.

(** The [number | null] field a numeric sort key reads. *)
Definition numeric_value (key : SortKey) (r : StockRow) : option JsNumber.number :=
  match key with
  | BySymbol => None
  | ByPrice => price r
  | ByChangePercent => changePercent r
  end.

(** Arrays are objects in a store; [rows] and [sortedRows] hold
    references. *)
Abbreviation store := (gmap nat (list StockRow)).




(** ** The view *)

(** [DEFAULT_SYMBOLS], line 13; the input box starts with
    [DEFAULT_SYMBOLS.join(", ")], line 19. *)
Definition DEFAULT_SYMBOLS : list string := ["AAPL"].


(** The direction mark of a header: the up and the down triangle of
    line 320. *)
Inductive Arrow := ArrowUp | ArrowDown.

(** What a sortable header cell shows, and the column its click sends
    to [onSort]. *)
Record HeaderCell := Header {
  header_label : string;
  header_column : SortKey;
  header_arrow : option Arrow
}.

(** [SortableHeader], lines 305-324. *)
Definition SortableHeader (label : string) (column sortKey : SortKey) (sortDir : SortDir)
  : HeaderCell :=
  let isActive := bool_decide (column = sortKey) in
  Header label column
    (if isActive then Some (match sortDir with asc => ArrowUp | desc => ArrowDown end)
     else None).

(** The three sortable headers of lines 204-224, with [onSort] bound to
    [handleSort]. *)
Definition headers (st : AppState) : list HeaderCell :=
  [SortableHeader "Symbol" BySymbol (sortKey st) (sortDir st);
   SortableHeader "Price" ByPrice (sortKey st) (sortDir st);
   SortableHeader "% Change" ByChangePercent (sortKey st) (sortDir st)].

Definition click_header (h : HeaderCell) (st : AppState) : AppState :=
  handleSort (header_column h) st.

(** The price cell, lines 239-246: the number to show as currency, or
    the dash. *)
Inductive PriceCell :=
| PriceDash
| PriceCurrency (n : JsNumber.number).

Inductive Tone := Emerald | Rose | Slate.

(** The change cell, lines 249-265: the number to show with two
    decimals and a percent sign, in a tone, or the dash. *)
Inductive ChangeCell :=
| ChangeDash
| ChangeValue (tone : Tone) (n : JsNumber.number).

Record TableLine := Line {
  line_key : string;
  line_symbol : string;
  line_price : PriceCell;
  line_change : ChangeCell;
  line_status : list string
}.

Definition price_cell (row : StockRow) : PriceCell :=
  match price row with
  | Some n => PriceCurrency n
  | None => PriceDash
  end.

Definition change_cell (row : StockRow) : ChangeCell :=
  match changePercent row with
  | Some n =>
      ChangeValue
        (if JsNumber.lt zero n then Emerald
         else if JsNumber.lt n zero then Rose
         else Slate)
        n
  | None => ChangeDash
  end.

(** The status cell, lines 268-279: four conditional labels. *)
Definition status_cell (row : StockRow) : list string :=
  (if decide (status row = StatusOk) then ["OK"] else [])
  ++ (if decide (status row = RateLimited) then ["Rate limited"] else [])
  ++ (if decide (status row = StatusError) then ["Error"] else [])
  ++ (if decide (status row = NoData) then ["No data"] else []).

(** One [tr] of lines 231-281. *)
Definition render_row (row : StockRow) : TableLine :=
  Line (symbol row) (symbol row) (price_cell row) (change_cell row) (status_cell row).

(** What [App] renders, lines 158-293, without layout. *)
Record View := Screen {
  input_value : string;
  refresh_disabled : bool;
  refresh_label : string;
  last_updated_line : option Z;
  banner : option string;
  header_cells : list HeaderCell;
  table_lines : list TableLine;
  loading_note : bool
}.

Definition render (st : AppState) : View :=
  Screen (symbolsInput st)
    (loading st)
    (if loading st then "Loading..." else "Refresh")
    (lastUpdated st)
    (match error st with
     | Some message =>
         if JsString.truthy message then Some ("Failed to load stocks: " +:+ message)
         else None
     | None => None
     end)
    (headers st)
    (map render_row (sortedRows (sortKey st) (sortDir st) (rows st)))
    (loading st).




(** A row as a cycle makes it: both values present for status ok, both
    absent otherwise. *)
Definition row_shape (r : StockRow) : Prop :=
  (status r = StatusOk -> price r <> None /\ changePercent r <> None)
  /\ (status r <> StatusOk -> price r = None /\ changePercent r = None).

(** A symbol in normal form, as [parseSymbols] produces them. *)
Definition normalised (x : string) : Prop :=
  x <> EmptyString /\ JsString.toUpperCase x = x /\ JsString.trim x = x
  /\ comma_free x.

(** The key of a row is comparable: it is a symbol, or a number other
    than NaN ([null] counts as 0). *)
Definition comparable_key (key : SortKey) (r : StockRow) : Prop :=
  match key with
  | BySymbol => True
  | _ => ToNumber (numeric_value key r) <> JsNumber.NaN
  end.

(** * Properties *)

(** ** Built-ins on sample inputs *)

Example parseFloat_examples :
  JsNumber.parseFloat "123.45" = JsNumber.Finite (JsNumber.Dec 12345 (-2))
  /\ JsNumber.parseFloat "  -1.5e3xyz" = JsNumber.Finite (JsNumber.Dec (-15) 2)
  /\ JsNumber.parseFloat ".5" = JsNumber.Finite (JsNumber.Dec 5 (-1))
  /\ JsNumber.parseFloat "5." = JsNumber.Finite (JsNumber.Dec 5 0)
  /\ JsNumber.parseFloat "1e" = JsNumber.Finite (JsNumber.Dec 1 0)
  /\ JsNumber.parseFloat "1.23%" = JsNumber.Finite (JsNumber.Dec 123 (-2))
  /\ JsNumber.parseFloat "abc" = JsNumber.NaN
  /\ JsNumber.parseFloat "-Infinityx" = JsNumber.Infinity true
  /\ JsNumber.parseFloat "." = JsNumber.NaN.
Proof. repeat split. Qed.

Example dec_to_string_examples :
  map JsNumber.dec_to_string
    [JsNumber.Dec 12345 (-2); JsNumber.Dec (-15) 2; JsNumber.Dec 5 (-7);
     JsNumber.Dec 1 21; JsNumber.Dec 12 21; JsNumber.Dec 5 (-3); JsNumber.Dec 1200 (-2)]
  = ["123.45"; "-1500"; "5e-7"; "1e+21"; "1.2e+22"; "0.005"; "12"].
Proof. reflexivity. Qed.

Example ToString_examples :
  ToString (JArr [JNum (JsNumber.Dec 125 (-1)); JNull; JArr [JStr "x"; JBool true]])
  = "12.5,,x,true"
  /\ ToString (JObj [("a", JNull)]) = "[object Object]".
Proof. split; reflexivity. Qed.

Example string_builtins_examples :
  JsString.split "," "a,,b," = ["a"; ""; "b"; ""]
  /\ JsString.trim "  a b   " = "a b"
  /\ JsString.toUpperCase "brk.b" = "BRK.B"
  /\ JsString.remove_first "%" "1%5%" = "15%"
  /\ JsString.encodeURIComponent "C D&E" = "C%20D%26E"
  /\ JsString.lt "AAPL" "AAPLX" = true
  /\ JsString.lt "MSFT" "IBM" = false.
Proof. repeat split. Qed.

(** ** Symbol normaliser *)

Section Normaliser.

Import JsString.

Lemma split_comma_free (p : string) :
  comma_free p -> split "," p = [p].
Proof.
  unfold comma_free. induction p as [|c p IH]; simpl; [done|].
  destruct (Ascii.eqb c ",") eqn:Hc; simpl; [done|].
  intros Hp. rewrite (IH Hp). done.
Qed.

Lemma split_app_comma (p rest : string) :
  comma_free p -> split "," (p +:+ String "," rest) = p :: split "," rest.
Proof.
  unfold comma_free. induction p as [|c p IH]; simpl; [done|].
  destruct (Ascii.eqb c ",") eqn:Hc; simpl; [done|].
  intros Hp. rewrite (IH Hp). done.
Qed.

Lemma split_ne_nil (s : string) : split "," s <> [].
Proof.
  induction s as [|c s IH]; simpl; [done|].
  destruct (Ascii.eqb c ","); [done|]. destruct (split "," s); done.
Qed.

(** Joining comma-free pieces with commas and splitting again gives the
    pieces back. *)
Lemma split_concat (pieces : list string) :
  Forall comma_free pieces -> pieces <> [] ->
  split "," (String.concat "," pieces) = pieces.
Proof.
  induction 1 as [|p ps Hp Hps IH]; [done|]. intros _.
  destruct ps as [|q ps]; simpl.
  - by apply split_comma_free.
  - change (split "," (p +:+ String "," (String.concat "," (q :: ps)))
            = p :: q :: ps).
    rewrite split_app_comma by done. f_equal. by apply IH.
Qed.

(** Every input is the comma-join of its pieces, and no piece holds a
    comma. *)
Lemma concat_split (s : string) :
  String.concat "," (split "," s) = s /\ Forall comma_free (split "," s).
Proof.
  induction s as [|c s [IH1 IH2]]; simpl.
  - split; [done|]. by repeat constructor.
  - destruct (Ascii.eqb c ",") eqn:Hc.
    + apply Ascii.eqb_eq in Hc as ->. split.
      * pose proof (split_ne_nil s) as Hne.
        simpl. destruct (split "," s) as [|q qs]; [done|].
        simpl in IH1 |- *. by rewrite IH1.
      * constructor; [done|done].
    + pose proof (split_ne_nil s) as Hne.
      destruct (split "," s) as [|q qs]; [done|]. split.
      * simpl in IH1 |- *. destruct qs; simpl in *; by rewrite <- IH1.
      * inversion IH2; subst. constructor; [|done].
        unfold comma_free in *. simpl. by rewrite Hc.
Qed.

Lemma upper_char_facts (c : ascii) :
  upper_char (upper_char c) = upper_char c
  /\ is_white_space (upper_char c) = is_white_space c
  /\ Ascii.eqb (upper_char c) "," = Ascii.eqb c ",".
Proof. destruct c as [[] [] [] [] [] [] [] []]; repeat split. Qed.

Lemma toUpperCase_idempotent (s : string) :
  toUpperCase (toUpperCase s) = toUpperCase s.
Proof.
  induction s as [|c s IH]; [done|]. simpl.
  by rewrite IH, (proj1 (upper_char_facts c)).
Qed.

Lemma trimStart_toUpperCase (s : string) :
  trimStart (toUpperCase s) = toUpperCase (trimStart s).
Proof.
  induction s as [|c s IH]; [done|]. simpl.
  rewrite (proj1 (proj2 (upper_char_facts c))). by destruct (is_white_space c).
Qed.

Lemma trimEnd_toUpperCase (s : string) :
  trimEnd (toUpperCase s) = toUpperCase (trimEnd s).
Proof.
  induction s as [|c s IH]; [done|]. simpl.
  rewrite IH, (proj1 (proj2 (upper_char_facts c))).
  destruct (trimEnd s); [by destruct (is_white_space c)|done].
Qed.

Lemma trimEnd_cons (c : ascii) (s : string) :
  trimEnd (String c s) =
    match trimEnd s with
    | EmptyString => if is_white_space c then EmptyString else String c EmptyString
    | t => String c t
    end.
Proof. done. Qed.

Lemma trimEnd_idempotent (s : string) : trimEnd (trimEnd s) = trimEnd s.
Proof.
  induction s as [|c s IH]; [done|]. rewrite trimEnd_cons.
  destruct (trimEnd s) as [|d t] eqn:E.
  - destruct (is_white_space c) eqn:Hc; [done|]. simpl. by rewrite Hc.
  - by rewrite trimEnd_cons, IH.
Qed.

Lemma trimStart_trim (s : string) : trimStart (trim s) = trim s.
Proof.
  unfold trim. induction s as [|c s IH]; [done|]. simpl.
  destruct (is_white_space c) eqn:Hc; [done|]. simpl.
  destruct (trimEnd s); simpl; rewrite ?Hc; simpl; by rewrite ?Hc.
Qed.

Lemma trim_idempotent (s : string) : trim (trim s) = trim s.
Proof.
  unfold trim at 1. rewrite trimStart_trim. apply trimEnd_idempotent.
Qed.

Lemma trimStart_comma_free (s : string) : comma_free s -> comma_free (trimStart s).
Proof.
  unfold comma_free. induction s as [|c s IH]; [done|]. simpl.
  intros [Hc Hs]%orb_false_iff. destruct (is_white_space c); [by apply IH|].
  simpl. by rewrite Hc, Hs.
Qed.

Lemma trimEnd_comma_free (s : string) : comma_free s -> comma_free (trimEnd s).
Proof.
  unfold comma_free. induction s as [|c s IH]; [done|]. simpl.
  intros [Hc Hs]%orb_false_iff. specialize (IH Hs).
  destruct (trimEnd s); [destruct (is_white_space c)|]; simpl in *;
    rewrite ?Hc; done.
Qed.

Lemma toUpperCase_comma_free (s : string) : comma_free s -> comma_free (toUpperCase s).
Proof.
  unfold comma_free. induction s as [|c s IH]; [done|]. simpl.
  intros [Hc Hs]%orb_false_iff.
  by rewrite (proj2 (proj2 (upper_char_facts c))), Hc, IH.
Qed.

(** A normalised piece is in normal form: in upper case, with no white
    space around it and no comma in it. *)
Lemma normalised_piece (p : string) :
  comma_free p ->
  let x := toUpperCase (trim p) in
  toUpperCase x = x /\ trim x = x /\ comma_free x.
Proof.
  intros Hp x. unfold x. split; [apply toUpperCase_idempotent|]. split.
  - unfold trim at 1. rewrite trimStart_toUpperCase, trimEnd_toUpperCase.
    fold (trim (trim p)). by rewrite trim_idempotent.
  - by apply toUpperCase_comma_free, trimEnd_comma_free, trimStart_comma_free.
Qed.



End Normaliser.


(** ** Quote classification *)

Section Classifier.









(** Further places where the code and the words part: an Error Message
    field that is present and empty is no error for the code, a
    price field that is present and 0 or empty counts as missing, and a
    body that is a bare number has no keys and reads as rate-limited. *)
Lemma classify_differs_elsewhere :
  classify "IBM" (JObj [("Error Message", JStr EmptyString)])
  = Ok (Row "IBM" None None NoData)
  /\ spec_classify "IBM" (JObj [("Error Message", JStr EmptyString)])
     = Row "IBM" None None StatusError
  /\ classify "IBM" (JObj [("Global Quote", JObj [("05. price", JNum (JsNumber.Dec 0 0))])])
     = Ok (Row "IBM" None None NoData)
  /\ classify "IBM" (JNum (JsNumber.Dec 5 0)) = Ok (Row "IBM" None None RateLimited)
  /\ spec_classify "IBM" (JNum (JsNumber.Dec 5 0)) = Row "IBM" None None NoData.
Proof. repeat split; by vm_compute. Qed.

End Classifier.

(** ** The refresh cycle *)

Section Cycle.

Lemma classify_symbol (s : string) (data : json) (r : StockRow) :
  classify s data = Ok r -> symbol r = s.
Proof.
  unfold classify, rate_limit_note, bind, replace_percent. intros H.
  repeat (match type of H with
          | context [match ?x with _ => _ end] => destruct x eqn:?
          end; simplify_eq/=; try done).
Qed.

Lemma classify_invariant (s : string) (data : json) (r : StockRow) :
  classify s data = Ok r -> row_invariant r.
Proof.
  unfold classify, rate_limit_note, bind, replace_percent, row_invariant.
  intros H.
  repeat (match type of H with
          | context [match ?x with _ => _ end] => destruct x eqn:?
          end; simplify_eq/=; try done).
Qed.

Lemma fetch_symbol_ok (e : env) (s : string) (w w' : world) (r : StockRow) :
  fetch_symbol e s w = (Ok r, w') -> symbol r = s /\ row_invariant r.
Proof.
  unfold fetch_symbol, mbind, fetch, res_json, console_log, lift, ret, throw.
  intros H.
  destruct (network e (length (requests w)) (quote_url e s)) as [err|ok body];
    [done|]. simpl in H.
  destruct ok; simpl in H.
  - destruct body as [data|err]; [|done]. simpl in H.
    injection H as H _. split; [by eapply classify_symbol|by eapply classify_invariant].
  - injection H as <- _. split; [done|]. by unfold row_invariant.
Qed.

(** A completed loop appended one row per symbol, in input order, each
    carrying its symbol and satisfying the row invariant. *)
Lemma fetch_loop_ok (e : env) (symbols : list string) :
  forall (results : list StockRow) (w w' : world) (out : list StockRow),
    fetch_loop e symbols results w = (Ok out, w') ->
    exists new, out = results ++ new
                /\ map symbol new = symbols
                /\ Forall row_invariant new.
Proof.
  induction symbols as [|s rest IH]; intros results w w' out H.
  - injection H as <- _. exists []. by rewrite app_nil_r.
  - simpl in H. unfold mbind in H at 1.
    destruct (fetch_symbol e s w) as [[r|err] w1] eqn:Hs; [|done].
    apply fetch_symbol_ok in Hs as [Hsym Hinv].
    apply IH in H as (new & -> & Hmap & Hall).
    exists (r :: new). rewrite <- app_assoc. simpl.
    split; [done|]. split; [by rewrite Hsym, Hmap|by constructor].
Qed.

Lemma fetchStocks_started (e : env) (st : AppState) :
  parseSymbols (symbolsInput st) <> [] ->
  fetchStocks e st =
    match fetch_loop e (parseSymbols (symbolsInput st)) [] empty_world with
    | (Ok results, w) => (committed e results st, w)
    | (Throw err, w) => (aborted err st, w)
    end.
Proof.
  intros Hne. unfold fetchStocks.
  destruct (parseSymbols (symbolsInput st)) as [|s rest] eqn:Hs; [done|].
  simpl length. simpl Nat.eqb. cbv iota.
  destruct (fetch_loop e (s :: rest) [] empty_world) as [[results|err] w]; done.
Qed.

Lemma fetchStocks_not_started (e : env) (st : AppState) :
  parseSymbols (symbolsInput st) = [] -> fetchStocks e st = (st, empty_world).
Proof. intros H. unfold fetchStocks. by rewrite H. Qed.

(** C7. When the input normalises to no symbol, [fetchStocks] returns
    at once: the state is unchanged (rows, loading, error, lastUpdated
    and the rest) and nothing is requested or logged. *)
Theorem fetchStocks_empty_guard (e : env) (st : AppState) :
  parseSymbols (symbolsInput st) = [] ->
  fetchStocks e st = (st, empty_world)
  /\ requests (snd (fetchStocks e st)) = [].
Proof.
  intros H. by rewrite (fetchStocks_not_started e st H).
Qed.

Lemma fetchStocks_empty_guard_witness :
  let st := State " , ,, " (rows state_ABC) true (Some "old") ByPrice desc (Some 5%Z) in
  fetchStocks (env_with 0 (Rejects NonError)) st = (st, empty_world)
  /\ requests (snd (fetchStocks (env_with 0 (Rejects NonError)) st)) = [].
Proof.
  intros st. apply (fetchStocks_empty_guard (env_with 0 (Rejects NonError)) st).
  reflexivity.
Defined.

(** C4. In a cycle that started, an exception that leaves the loop sets
    the top-level error to its message, leaves [rows] and [lastUpdated]
    as they were and clears [loading]; a completed loop commits the rows
    and the time; [loading] is false after either. *)
Theorem fetchStocks_abort_keeps_rows (e : env) (st : AppState) :
  parseSymbols (symbolsInput st) <> [] ->
  loading (fst (fetchStocks e st)) = false
  /\ (forall err w,
        fetch_loop e (parseSymbols (symbolsInput st)) [] empty_world = (Throw err, w) ->
        error (fst (fetchStocks e st)) = Some (error_message err)
        /\ rows (fst (fetchStocks e st)) = rows st
        /\ lastUpdated (fst (fetchStocks e st)) = lastUpdated st)
  /\ (forall results w,
        fetch_loop e (parseSymbols (symbolsInput st)) [] empty_world = (Ok results, w) ->
        error (fst (fetchStocks e st)) = None
        /\ rows (fst (fetchStocks e st)) = results
        /\ lastUpdated (fst (fetchStocks e st)) = Some (now e)).
Proof.
  intros Hne. rewrite (fetchStocks_started e st Hne).
  destruct (fetch_loop e (parseSymbols (symbolsInput st)) [] empty_world)
    as [[results|err] w]; simpl; (split; [done|]); split; intros ? ? [= <- <-]; done.
Qed.

Lemma fetchStocks_abort_keeps_rows_witness :
  let e := env_with 1 (Resolves true (JsonRejects (ErrorObject "Unexpected token"))) in
  error (fst (fetchStocks e state_ABC)) = Some "Unexpected token"
  /\ rows (fst (fetchStocks e state_ABC)) = rows state_ABC
  /\ lastUpdated (fst (fetchStocks e state_ABC)) = Some 1600000000000%Z
  /\ loading (fst (fetchStocks e state_ABC)) = false.
Proof.
  intros e.
  assert (Hne : parseSymbols (symbolsInput state_ABC) <> []) by (vm_compute; discriminate).
  destruct (fetchStocks_abort_keeps_rows e state_ABC Hne) as (Hl & Hthrow & _).
  destruct (Hthrow (ErrorObject "Unexpected token")
              (snd (fetch_loop e (parseSymbols (symbolsInput state_ABC)) [] empty_world))
              eq_refl) as (He & Hr & Hu).
  exact (conj He (conj Hr (conj Hu Hl))).
Defined.

(** C5. Every row a cycle produces satisfies the row invariant, so the
    rows of the state satisfy it after [fetchStocks] when they did
    before. *)
Theorem fetch_cycle_row_invariant (e : env) (st : AppState) :
  (forall results w,
      fetch_loop e (parseSymbols (symbolsInput st)) [] empty_world = (Ok results, w) ->
      Forall row_invariant results)
  /\ (Forall row_invariant (rows st) ->
      Forall row_invariant (rows (fst (fetchStocks e st)))).
Proof.
  assert (Hloop : forall results w,
    fetch_loop e (parseSymbols (symbolsInput st)) [] empty_world = (Ok results, w) ->
    Forall row_invariant results).
  { intros results w H. apply fetch_loop_ok in H as (new & -> & _ & Hall). done. }
  split; [done|]. intros Hst.
  destruct (decide (parseSymbols (symbolsInput st) = [])) as [Hnil|Hne].
  - by rewrite (fetchStocks_not_started e st Hnil).
  - rewrite (fetchStocks_started e st Hne).
    destruct (fetch_loop e (parseSymbols (symbolsInput st)) [] empty_world)
      as [[results|err] w] eqn:Hl; simpl; [by eapply Hloop|done].
Qed.

Lemma fetch_cycle_row_invariant_witness :
  map status (rows (fst (fetchStocks (env_with 1 (Resolves false (Parsed JNull))) state_ABC)))
  = [StatusOk; StatusError; StatusOk]
  /\ Forall row_invariant
       (rows (fst (fetchStocks (env_with 1 (Resolves false (Parsed JNull))) state_ABC))).
Proof.
  split; [reflexivity|].
  apply (fetch_cycle_row_invariant (env_with 1 (Resolves false (Parsed JNull))) state_ABC).
  apply Forall_cons_2; [|apply Forall_nil_2].
  split; [split; discriminate|]. intros H. by destruct H.
Defined.

(** A symbol whose request rejects ends the loop with that exception:
    the request is recorded, nothing is pushed and no later symbol is
    requested. *)
Lemma fetch_loop_rejects (e : env) (s : string) (rest : list string)
    (results : list StockRow) (w : world) (err : thrown) :
  network e (length (requests w)) (quote_url e s) = Rejects err ->
  fetch_loop e (s :: rest) results w
  = (Throw err, World (requests w ++ [quote_url e s]) (console w)).
Proof.
  intros H. simpl. unfold mbind, fetch_symbol, mbind, fetch. by rewrite H.
Qed.

(** A response with a non-success status gives an error row for its
    symbol and the loop goes on. *)
Lemma fetch_loop_http_failure (e : env) (s : string) (rest : list string)
    (results : list StockRow) (w : world) (body : json_outcome) :
  network e (length (requests w)) (quote_url e s) = Resolves false body ->
  fetch_loop e (s :: rest) results w
  = fetch_loop e rest (results ++ [Row s None None StatusError])
      (World (requests w ++ [quote_url e s]) (console w)).
Proof.
  intros H. simpl. unfold mbind, fetch_symbol, mbind, fetch. by rewrite H.
Qed.

Lemma fetch_loop_step (e : env) (s : string) (rest : list string)
    (results : list StockRow) (w w1 : world) (r : StockRow) :
  fetch_symbol e s w = (Ok r, w1) ->
  fetch_loop e (s :: rest) results w = fetch_loop e rest (results ++ [r]) w1.
Proof.
  intros H. simpl. unfold mbind at 1. by rewrite H.
Qed.

(** The loop over [pre ++ rest] runs the loop over [pre] and, when that
    completes, goes on with [rest]. *)
Lemma fetch_loop_app (e : env) (pre rest : list string) :
  forall (results : list StockRow) (w : world),
    fetch_loop e (pre ++ rest) results w =
      match fetch_loop e pre results w with
      | (Ok rs, w1) => fetch_loop e rest rs w1
      | (Throw err, w1) => (Throw err, w1)
      end.
Proof.
  induction pre as [|s pre IH]; intros results w; [done|].
  change (fetch_loop e (s :: pre ++ rest) results w =
          match fetch_loop e (s :: pre) results w with
          | (Ok rs, w1) => fetch_loop e rest rs w1
          | (Throw err, w1) => (Throw err, w1)
          end).
  destruct (fetch_symbol e s w) as [[r|err] w1] eqn:Hs.
  - rewrite !(fetch_loop_step _ _ _ _ _ _ _ Hs). apply IH.
  - simpl. unfold mbind. by rewrite Hs.
Qed.

(** C1. When the symbols before B are fetched and classified and the
    request for B rejects with [err], the cycle is aborted: no row is
    committed ([rows] and [lastUpdated] keep their values), the
    top-level error is the message of [err], [loading] ends false, and
    the symbols after B are never requested. For the symbols A, B, C
    the claim asks for three rows A, B(error), C instead. *)
Theorem fetchStocks_rejected_request_aborts (e : env) (st : AppState)
    (before after : list string) (B : string)
    (done_rows : list StockRow) (w1 : world) (err : thrown) :
  parseSymbols (symbolsInput st) = before ++ B :: after ->
  fetch_loop e before [] empty_world = (Ok done_rows, w1) ->
  network e (length (requests w1)) (quote_url e B) = Rejects err ->
  fetchStocks e st
  = (State (symbolsInput st) (rows st) false (Some (error_message err))
       (sortKey st) (sortDir st) (lastUpdated st),
     World (requests w1 ++ [quote_url e B]) (console w1)).
Proof.
  intros Hs Hpre HB.
  rewrite fetchStocks_started by (rewrite Hs; by destruct before).
  rewrite Hs, fetch_loop_app, Hpre.
  by rewrite (fetch_loop_rejects _ _ _ _ _ _ HB).
Qed.

Lemma fetchStocks_rejected_request_aborts_witness :
  let e := env_with 1 (Rejects (ErrorObject "Failed to fetch")) in
  fetchStocks e state_ABC
  = (State "A, B, C" (rows state_ABC) false (Some "Failed to fetch") BySymbol asc
       (Some 1600000000000%Z),
     World [quote_url e "A"; quote_url e "B"] [("A", quote_body)]).
Proof.
  intros e.
  exact (fetchStocks_rejected_request_aborts e state_ABC ["A"] ["C"] "B"
           [Row "A" (Some (JsNumber.Finite (JsNumber.Dec 12345 (-2))))
              (Some (JsNumber.Finite (JsNumber.Dec 123 (-2)))) StatusOk]
           (World [quote_url e "A"] [("A", quote_body)])
           (ErrorObject "Failed to fetch") eq_refl eq_refl eq_refl).
Defined.

Lemma fetch_symbol_requests (e : env) (s : string) (w w' : world) (r : StockRow) :
  fetch_symbol e s w = (Ok r, w') -> requests w' = requests w ++ [quote_url e s].
Proof.
  unfold fetch_symbol, mbind, fetch, res_json, console_log, lift, ret, throw.
  intros H.
  destruct (network e (length (requests w)) (quote_url e s)) as [err|ok body];
    [done|]. simpl in H.
  destruct ok; simpl in H.
  - destruct body as [data|err]; [|done]. simpl in H. by injection H as _ <-.
  - by injection H as _ <-.
Qed.

Lemma fetch_loop_requests (e : env) (symbols : list string) :
  forall (results : list StockRow) (w w' : world) (out : list StockRow),
    fetch_loop e symbols results w = (Ok out, w') ->
    requests w' = requests w ++ map (quote_url e) symbols.
Proof.
  induction symbols as [|s rest IH]; intros results w w' out H.
  - injection H as _ <-. by rewrite app_nil_r.
  - simpl in H. unfold mbind in H at 1.
    destruct (fetch_symbol e s w) as [[r|err] w1] eqn:Hs; [|done].
    apply fetch_symbol_requests in Hs. apply IH in H.
    rewrite H, Hs, <- app_assoc. done.
Qed.

(** A cycle that completes has issued one request per symbol, in input
    order, and commits one row per symbol, in input order. *)
Theorem fetch_cycle_one_row_per_symbol (e : env) (st : AppState)
    (results : list StockRow) (w : world) :
  fetch_loop e (parseSymbols (symbolsInput st)) [] empty_world = (Ok results, w) ->
  map symbol results = parseSymbols (symbolsInput st)
  /\ requests w = map (quote_url e) (parseSymbols (symbolsInput st))
  /\ (parseSymbols (symbolsInput st) <> [] -> rows (fst (fetchStocks e st)) = results).
Proof.
  intros H. split; [|split].
  - by apply fetch_loop_ok in H as (new & -> & Hmap & _).
  - by apply fetch_loop_requests in H.
  - intros Hne. by rewrite (fetchStocks_started e st Hne), H.
Qed.

Lemma fetch_cycle_one_row_per_symbol_witness :
  let e := env_with 1 (Resolves false (JsonRejects NonError)) in
  map symbol (rows (fst (fetchStocks e state_ABC))) = ["A"; "B"; "C"]
  /\ requests (snd (fetchStocks e state_ABC))
     = [quote_url e "A"; quote_url e "B"; quote_url e "C"].
Proof.
  intros e.
  destruct (fetch_cycle_one_row_per_symbol e state_ABC
              (rows (fst (fetchStocks e state_ABC)))
              (snd (fetchStocks e state_ABC)) eq_refl) as (H1 & H2 & _).
  exact (conj H1 H2).
Defined.

(** A symbol answered with a non-success status gets an error row and
    the cycle goes on with the symbols after it. *)
Theorem fetch_loop_http_failure_continues (e : env) (before after : list string)
    (B : string) (done_rows : list StockRow) (w1 : world) (body : json_outcome) :
  fetch_loop e before [] empty_world = (Ok done_rows, w1) ->
  network e (length (requests w1)) (quote_url e B) = Resolves false body ->
  fetch_loop e (before ++ B :: after) [] empty_world
  = fetch_loop e after (done_rows ++ [Row B None None StatusError])
      (World (requests w1 ++ [quote_url e B]) (console w1)).
Proof.
  intros Hpre HB. rewrite fetch_loop_app, Hpre.
  by apply (fetch_loop_http_failure e B after done_rows w1 body).
Qed.

(** A response with a non-success status for B gives B an error row
    and the cycle completes: with A and C answered by a quote, three
    rows are committed in input order, [loading] ends false and
    [lastUpdated] is set. *)
Lemma fetch_loop_http_failure_continues_witness :
  let e := env_with 1 (Resolves false (JsonRejects NonError)) in
  let ok s := Row s (Some (JsNumber.Finite (JsNumber.Dec 12345 (-2))))
                (Some (JsNumber.Finite (JsNumber.Dec 123 (-2)))) StatusOk in
  fetch_loop e ["A"; "B"; "C"] [] empty_world
  = (Ok [ok "A"; Row "B" None None StatusError; ok "C"],
     World [quote_url e "A"; quote_url e "B"; quote_url e "C"]
       [("A", quote_body); ("C", quote_body)])
  /\ fst (fetchStocks e state_ABC)
     = State "A, B, C" [ok "A"; Row "B" None None StatusError; ok "C"] false None
         BySymbol asc (Some (now e)).
Proof.
  intros e ok. split; [|reflexivity].
  exact (eq_trans
           (fetch_loop_http_failure_continues e ["A"] ["C"] "B" [ok "A"]
              (World [quote_url e "A"] [("A", quote_body)])
              (JsonRejects NonError) eq_refl eq_refl)
           eq_refl).
Defined.

(** C2. The classification is not total: reading [data.Note] of a
    [null] body throws a TypeError, a change-percent field that is
    truthy and not a string throws at [replace], and a body that does
    not parse makes [res.json()] reject. Each exception leaves the loop
    and aborts the cycle with no row for the symbol. *)
Theorem classification_throws :
  (forall s : string, classify s JNull = Throw (TypeError_read "null" "Note"))
  /\ (forall (s : string) (p : string) (d : JsNumber.decimal),
        JsString.truthy p = true -> JsNumber.mantissa d <> 0%Z ->
        classify s
          (JObj [("Global Quote",
                  JObj [("05. price", JStr p); ("10. change percent", JNum d)])])
        = Throw TypeError_not_a_function)
  /\ (forall (e : env) (st : AppState) (s : string) (rest : list string) (err : thrown),
        parseSymbols (symbolsInput st) = s :: rest ->
        network e 0 (quote_url e s) = Resolves true (JsonRejects err) ->
        fetchStocks e st = (aborted err st, World [quote_url e s] []))
  /\ (forall (e : env) (st : AppState) (s : string) (rest : list string),
        parseSymbols (symbolsInput st) = s :: rest ->
        network e 0 (quote_url e s) = Resolves true (Parsed JNull) ->
        fetchStocks e st
        = (aborted (TypeError_read "null" "Note") st,
           World [quote_url e s] [(s, JNull)])).
Proof.
  split; [done|]. split.
  { intros s p d Hp Hd. destruct p as [|c p]; [done|].
    unfold classify, rate_limit_note, bind. simpl.
    destruct (JsNumber.mantissa d =? 0)%Z eqn:E; [|done].
    apply Z.eqb_eq in E. done. }
  split.
  - intros e st s rest err Hs Hn.
    rewrite fetchStocks_started by (rewrite Hs; done). rewrite Hs. simpl.
    unfold mbind, fetch_symbol, mbind, fetch. simpl. by rewrite Hn.
  - intros e st s rest Hs Hn.
    rewrite fetchStocks_started by (rewrite Hs; done). rewrite Hs. simpl.
    unfold mbind, fetch_symbol, mbind, fetch. simpl. by rewrite Hn.
Qed.

Lemma classification_throws_witness :
  fetchStocks (env_with 0 (Resolves true (Parsed JNull))) state_ABC
  = (State "A, B, C" (rows state_ABC) false
       (Some "Cannot read properties of null (reading 'Note')") BySymbol asc
       (Some 1600000000000%Z),
     World [quote_url (env_with 0 (Resolves true (Parsed JNull))) "A"] [("A", JNull)]).
Proof.
  exact (proj2 (proj2 (proj2 classification_throws))
           (env_with 0 (Resolves true (Parsed JNull))) state_ABC "A" ["B"; "C"]
           eq_refl eq_refl).
Defined.

End Cycle.

(** ** Sorting with a comparator *)

Section SortTheory.

Context {A : Type} (c c' : A -> A -> Z).

(** The comparator is sign-antisymmetric and its strict part is
    transitive; [c'] is the comparator of the flipped direction. *)
Hypothesis c_anti : forall x y, (0 < c x y)%Z <-> (c y x < 0)%Z.
Hypothesis c_trans : forall x y z, (0 < c x y)%Z -> (0 < c y z)%Z -> (0 < c x z)%Z.
Hypothesis c_flip : forall x y, (0 < c' x y)%Z <-> (c x y < 0)%Z.






Lemma sort_insert_Permutation (x : A) (l : list A) : sort_insert c x l ≡ₚ x :: l.
Proof.
  induction l as [|y l IH]; [done|]. simpl.
  destruct (0 <? c x y)%Z; [|done]. rewrite IH. apply Permutation_swap.
Qed.

Lemma sort_Permutation (l : list A) : sort c l ≡ₚ l.
Proof.
  induction l as [|x l IH]; [done|]. simpl.
  by rewrite sort_insert_Permutation, IH.
Qed.







End SortTheory.


(** ** The order of keys *)

Section KeyOrder.

Lemma string_lt_asym (s t : string) :
  JsString.lt s t = true -> JsString.lt t s = false.
Proof.
  revert t. induction s as [|a s IH]; intros [|b t]; simpl; try done.
  destruct (N.ltb_spec (N_of_ascii a) (N_of_ascii b)),
           (N.ltb_spec (N_of_ascii b) (N_of_ascii a)),
           (N.eqb_spec (N_of_ascii a) (N_of_ascii b)),
           (N.eqb_spec (N_of_ascii b) (N_of_ascii a)); try lia; try done.
  apply IH.
Qed.

Lemma string_lt_trans (s t u : string) :
  JsString.lt s t = true -> JsString.lt t u = true -> JsString.lt s u = true.
Proof.
  revert t u. induction s as [|a s IH]; intros [|b t] [|d u]; simpl; try done.
  destruct (N.ltb_spec (N_of_ascii a) (N_of_ascii b)),
           (N.ltb_spec (N_of_ascii b) (N_of_ascii d)),
           (N.ltb_spec (N_of_ascii a) (N_of_ascii d)),
           (N.eqb_spec (N_of_ascii a) (N_of_ascii b)),
           (N.eqb_spec (N_of_ascii b) (N_of_ascii d)),
           (N.eqb_spec (N_of_ascii a) (N_of_ascii d)); try lia; try done.
  apply IH.
Qed.

Lemma Qcompare_Lt_asym (p q : Q) : (p ?= q)%Q = Lt -> (q ?= p)%Q <> Lt.
Proof.
  intros H1 H2. apply Qlt_alt in H1, H2.
  exact (Qlt_irrefl p (Qlt_trans _ _ _ H1 H2)).
Qed.


Lemma number_lt_asym (x y : JsNumber.number) :
  JsNumber.lt x y = true -> JsNumber.lt y x = false.
Proof.
  destruct x as [|[]|a], y as [|[]|b]; simpl; try done.
  destruct (JsNumber.dec_to_Q a ?= JsNumber.dec_to_Q b)%Q eqn:E; try done.
  intros _. apply Qcompare_Lt_asym in E.
  by destruct (JsNumber.dec_to_Q b ?= JsNumber.dec_to_Q a)%Q.
Qed.


Lemma string_lt_total (s t : string) :
  s <> t -> JsString.lt s t = true \/ JsString.lt t s = true.
Proof.
  revert t. induction s as [|a s IH]; intros [|b t] Hne; simpl;
    [done|by left|by right|].
  destruct (N.ltb_spec (N_of_ascii a) (N_of_ascii b)); [by left|].
  destruct (N.ltb_spec (N_of_ascii b) (N_of_ascii a)); [by right|].
  assert (Hab : a = b).
  { rewrite <- (ascii_N_embedding a), <- (ascii_N_embedding b). f_equal. lia. }
  subst b. rewrite N.eqb_refl. apply IH. congruence.
Qed.

Lemma key_lt_asym (key : SortKey) (a b : StockRow) :
  key_lt key a b = true -> key_lt key b a = false.
Proof.
  destruct key; simpl; [apply string_lt_asym|apply number_lt_asym..].
Qed.


(** The sign of the comparator: [a] goes before [b] when the result is
    negative, after it when positive. *)
Lemma compareRows_sign (key : SortKey) (dirn : SortDir) (a b : StockRow) :
  ((compareRows key dirn a b < 0)%Z <->
     key_lt key (if dirn is asc then a else b) (if dirn is asc then b else a) = true)
  /\ ((0 < compareRows key dirn a b)%Z <->
     key_lt key (if dirn is asc then b else a) (if dirn is asc then a else b) = true).
Proof.
  unfold compareRows. destruct dirn; simpl;
    destruct (key_lt key a b) eqn:Eab, (key_lt key b a) eqn:Eba;
    try (rewrite (key_lt_asym _ _ _ Eab) in Eba; discriminate);
    split; split; intros H; first [done | lia].
Qed.

Lemma compareRows_flip (key : SortKey) (dirn : SortDir) (a b : StockRow) :
  compareRows key (flip dirn) a b = (- compareRows key dirn a b)%Z.
Proof.
  unfold compareRows.
  by destruct dirn, (key_lt key a b), (key_lt key b a).
Qed.

Lemma compareRows_anti (key : SortKey) (dirn : SortDir) (a b : StockRow) :
  (0 < compareRows key dirn a b)%Z <-> (compareRows key dirn b a < 0)%Z.
Proof.
  rewrite (proj2 (compareRows_sign key dirn a b)),
          (proj1 (compareRows_sign key dirn b a)). by destruct dirn.
Qed.



End KeyOrder.

(** ** Sort state *)

Section SortState.

(** C8, as the claim states it, fails in the state the application
    mounts with (symbol, ascending): the first toggle of the symbol
    column gives descending and the second ascending. *)
Lemma handleSort_twice_from_ascending :
  sortKey initial_state = BySymbol
  /\ sortDir initial_state = asc
  /\ sortDir (handleSort BySymbol initial_state) = desc
  /\ sortDir (handleSort BySymbol (handleSort BySymbol initial_state)) = asc
  /\ ~ (sortDir (handleSort BySymbol initial_state) = asc
        /\ sortDir (handleSort BySymbol (handleSort BySymbol initial_state)) = desc).
Proof. repeat split; try done. by intros [? _]. Qed.

(** C8, as the code has it. Selecting a key that is not active makes it
    active with direction ascending; toggling the active key flips the
    direction and keeps the key. Two toggles of one column leave it
    active, with the direction the state had when the column was
    already active and descending when it was not; the first toggle
    gives ascending exactly when the column was not active or was
    descending. No other cell of the state changes. *)
Theorem handleSort_toggles (key : SortKey) (st : AppState) :
  (key <> sortKey st ->
     sortKey (handleSort key st) = key /\ sortDir (handleSort key st) = asc)
  /\ (key = sortKey st ->
     sortKey (handleSort key st) = sortKey st
     /\ sortDir (handleSort key st) = flip (sortDir st))
  /\ sortKey (handleSort key (handleSort key st)) = key
  /\ sortDir (handleSort key (handleSort key st))
     = (if decide (key = sortKey st) then sortDir st else desc)
  /\ (sortDir (handleSort key st) = asc <-> key <> sortKey st \/ sortDir st = desc)
  /\ (symbolsInput (handleSort key st) = symbolsInput st
      /\ rows (handleSort key st) = rows st
      /\ loading (handleSort key st) = loading st
      /\ error (handleSort key st) = error st
      /\ lastUpdated (handleSort key st) = lastUpdated st).
Proof.
  unfold handleSort.
  destruct (decide (key = sortKey st)) as [->|Hne]; simpl.
  - rewrite decide_True by done. simpl.
    destruct (sortDir st); repeat split; try done; try (by right); by intros [?|?].
  - rewrite decide_True by done. simpl.
    repeat split; try done; try (by left); by intros [?|?].
Qed.

Lemma handleSort_toggles_witness :
  let st := State "AAPL" [] false None ByPrice desc None in
  sortKey (handleSort ByPrice st) = ByPrice
  /\ sortDir (handleSort ByPrice st) = asc
  /\ sortDir (handleSort ByPrice (handleSort ByPrice st)) = desc
  /\ sortDir (handleSort BySymbol st) = asc.
Proof.
  intros st.
  destruct (handleSort_toggles ByPrice st) as (_ & Hsame & _ & Htwice & _).
  destruct (Hsame eq_refl) as [Hk Hd].
  destruct (handleSort_toggles BySymbol st) as (Hnew & _).
  destruct (Hnew ltac:(discriminate)) as [_ Ha].
  exact (conj Hk (conj Hd (conj Htwice Ha))).
Defined.

End SortState.

(** ** Row sorter *)

Section RowSorter.

Lemma sort_pair {A : Type} (c : A -> A -> Z) (x y : A) :
  sort c [x; y] = if (0 <? c x y)%Z then [y; x] else [x; y].
Proof. done. Qed.









(** C10. On a numeric sort key a row whose field is [null] compares as
    a row whose field is 0. Against a row [b] with a positive value it
    goes first in ascending order, against a negative value it goes
    second, and it ties with a row whose value is neither above nor
    below 0, the two keeping their input order; in descending order the
    comparator is the negated one and the two non-tied orders are
    reversed. *)
Theorem null_compares_as_zero (key : SortKey) (a b : StockRow) :
  key <> BySymbol ->
  numeric_value key a = None ->
  let v := ToNumber (numeric_value key b) in
  (JsNumber.lt zero v = true ->
     compareRows key asc a b = (-1)%Z /\ compareRows key asc b a = 1%Z
     /\ sortedRows key asc [a; b] = [a; b] /\ sortedRows key asc [b; a] = [a; b]
     /\ sortedRows key desc [a; b] = [b; a] /\ sortedRows key desc [b; a] = [b; a])
  /\ (JsNumber.lt v zero = true ->
     compareRows key asc a b = 1%Z /\ compareRows key asc b a = (-1)%Z
     /\ sortedRows key asc [a; b] = [b; a] /\ sortedRows key asc [b; a] = [b; a]
     /\ sortedRows key desc [a; b] = [a; b] /\ sortedRows key desc [b; a] = [a; b])
  /\ (JsNumber.lt zero v = false -> JsNumber.lt v zero = false ->
     forall dirn,
       compareRows key dirn a b = 0%Z /\ compareRows key dirn b a = 0%Z
       /\ sortedRows key dirn [a; b] = [a; b] /\ sortedRows key dirn [b; a] = [b; a])
  /\ (forall dirn x y,
       compareRows key (flip dirn) x y = (- compareRows key dirn x y)%Z)
  /\ (forall dirn a0,
       numeric_value key a0 = Some zero ->
       compareRows key dirn a b = compareRows key dirn a0 b
       /\ compareRows key dirn b a = compareRows key dirn b a0).
Proof.
  intros Hkey Ha v.
  assert (Hab : key_lt key a b = JsNumber.lt zero v).
  { destruct key; [done|simpl in *; by rewrite Ha..]. }
  assert (Hba : key_lt key b a = JsNumber.lt v zero).
  { destruct key; [done|simpl in *; by rewrite Ha..]. }
  unfold sortedRows. rewrite !sort_pair. unfold compareRows.
  rewrite Hab, Hba.
  split; [|split; [|split; [|split]]].
  - intros Hp. rewrite Hp, (number_lt_asym _ _ Hp). done.
  - intros Hn. rewrite Hn, (number_lt_asym _ _ Hn). done.
  - intros Hz1 Hz2 dirn. rewrite !sort_pair. unfold compareRows.
    rewrite Hab, Hba, Hz1, Hz2. by destruct dirn.
  - intros dirn x y. apply compareRows_flip.
  - intros dirn a0 Ha0.
    assert (Ha0b : key_lt key a0 b = JsNumber.lt zero v).
    { destruct key; [done|simpl in *; by rewrite Ha0..]. }
    assert (Hba0 : key_lt key b a0 = JsNumber.lt v zero).
    { destruct key; [done|simpl in *; by rewrite Ha0..]. }
    fold (compareRows key dirn a0 b). fold (compareRows key dirn b a0).
    unfold compareRows. by rewrite Ha0b, Hba0.
Qed.

Lemma null_compares_as_zero_witness :
  let a := Row "ZZZZ" None None NoData in
  let b := Row "MSFT" (Some (JsNumber.Finite (JsNumber.Dec 3 0))) (Some zero) StatusOk in
  compareRows ByPrice asc a b = (-1)%Z /\ compareRows ByPrice asc b a = 1%Z
  /\ sortedRows ByPrice asc [a; b] = [a; b] /\ sortedRows ByPrice asc [b; a] = [a; b]
  /\ sortedRows ByPrice desc [a; b] = [b; a] /\ sortedRows ByPrice desc [b; a] = [b; a].
Proof.
  intros a b.
  refine (proj1 (null_compares_as_zero ByPrice a b _ eq_refl) eq_refl).
  discriminate.
Defined.

End RowSorter.

(** ** More on the refresh cycle *)

Section CycleMore.

Lemma fetch_symbol_requests_any (e : env) (s : string) (w w' : world)
    (r : result StockRow) :
  fetch_symbol e s w = (r, w') -> requests w' = requests w ++ [quote_url e s].
Proof.
  unfold fetch_symbol, mbind, fetch, res_json, console_log, lift, ret, throw.
  intros H.
  destruct (network e (length (requests w)) (quote_url e s)) as [err|ok body];
    [by injection H as _ <-|]. simpl in H.
  destruct ok; simpl in H; [|by injection H as _ <-].
  destruct body as [data|err]; simpl in H; by injection H as _ <-.
Qed.

(** Whatever its outcome, the loop requests the URLs of its symbols in
    order, one each, and stops at the first symbol that throws. *)
Lemma fetch_loop_requests_prefix (e : env) (symbols : list string) :
  forall (results : list StockRow) (w w' : world) (r : result (list StockRow)),
    fetch_loop e symbols results w = (r, w') ->
    exists done_urls,
      requests w' = requests w ++ done_urls
      /\ done_urls `prefix_of` map (quote_url e) symbols.
Proof.
  induction symbols as [|s rest IH]; intros results w w' r H.
  - injection H as _ <-. exists []. by rewrite app_nil_r.
  - simpl in H. unfold mbind in H at 1.
    destruct (fetch_symbol e s w) as [[row|err] w1] eqn:Hs.
    + apply fetch_symbol_requests_any in Hs.
      apply IH in H as (urls & Hreq & Hpre).
      exists (quote_url e s :: urls). split.
      * rewrite Hreq, Hs, <- app_assoc. done.
      * simpl. by apply prefix_cons.
    + apply fetch_symbol_requests_any in Hs. injection H as _ <-.
      exists [quote_url e s]. split; [done|]. simpl.
      apply prefix_cons, prefix_nil.
Qed.

(** The requests of a cycle, whatever its outcome, are an initial part
    of the URLs of the normalised symbols, in input order: nothing else
    is requested, nothing is retried, and nothing is requested after
    the symbol at which the loop threw. *)
Theorem fetchStocks_requests_prefix (e : env) (st : AppState) :
  requests (snd (fetchStocks e st))
    `prefix_of` map (quote_url e) (parseSymbols (symbolsInput st)).
Proof.
  destruct (decide (parseSymbols (symbolsInput st) = [])) as [Hnil|Hne].
  - rewrite (fetchStocks_not_started e st Hnil). apply prefix_nil.
  - rewrite (fetchStocks_started e st Hne).
    destruct (fetch_loop e (parseSymbols (symbolsInput st)) [] empty_world)
      as [r w] eqn:Hl.
    apply fetch_loop_requests_prefix in Hl as (urls & Hreq & Hpre).
    simpl in Hreq. destruct r; simpl; by rewrite Hreq.
Qed.

Lemma fetchStocks_frame (e : env) (st : AppState) :
  symbolsInput (fst (fetchStocks e st)) = symbolsInput st
  /\ sortKey (fst (fetchStocks e st)) = sortKey st
  /\ sortDir (fst (fetchStocks e st)) = sortDir st.
Proof.
  destruct (decide (parseSymbols (symbolsInput st) = [])) as [Hnil|Hne].
  - by rewrite (fetchStocks_not_started e st Hnil).
  - rewrite (fetchStocks_started e st Hne).
    by destruct (fetch_loop e (parseSymbols (symbolsInput st)) [] empty_world)
      as [[results|err] w].
Qed.

(** A refresh leaves the input text and the sort state alone, and a
    header click and a refresh can be done in either order with the same
    result. *)
Theorem fetchStocks_commutes_with_handleSort (e : env) (st : AppState) (key : SortKey) :
  symbolsInput (fst (fetchStocks e st)) = symbolsInput st
  /\ sortKey (fst (fetchStocks e st)) = sortKey st
  /\ sortDir (fst (fetchStocks e st)) = sortDir st
  /\ fetchStocks e (handleSort key st)
     = (handleSort key (fst (fetchStocks e st)), snd (fetchStocks e st)).
Proof.
  destruct (fetchStocks_frame e st) as (H1 & H2 & H3).
  split; [done|]. split; [done|]. split; [done|].
  assert (Hin : symbolsInput (handleSort key st) = symbolsInput st).
  { unfold handleSort. by destruct (decide (key = sortKey st)). }
  destruct (decide (parseSymbols (symbolsInput st) = [])) as [Hnil|Hne].
  - rewrite (fetchStocks_not_started e st Hnil).
    by rewrite fetchStocks_not_started by (by rewrite Hin).
  - rewrite (fetchStocks_started e st Hne).
    rewrite fetchStocks_started by (by rewrite Hin). rewrite Hin.
    destruct (fetch_loop e (parseSymbols (symbolsInput st)) [] empty_world)
      as [[results|err] w]; simpl; f_equal; unfold handleSort; simpl;
      by destruct (decide (key = sortKey st)).
Qed.

(** Refreshing again in the same environment gives the same state and
    the same requests: the cycle depends on the state only through the
    input text, which it keeps. *)
Theorem fetchStocks_idempotent (e : env) (st : AppState) :
  fetchStocks e (fst (fetchStocks e st)) = fetchStocks e st.
Proof.
  destruct (decide (parseSymbols (symbolsInput st) = [])) as [Hnil|Hne].
  - rewrite (fetchStocks_not_started e st Hnil). simpl.
    by apply fetchStocks_not_started.
  - pose proof (fetchStocks_frame e st) as (Hin & _ & _).
    rewrite (fetchStocks_started e (fst (fetchStocks e st)))
      by (by rewrite Hin).
    rewrite Hin. rewrite (fetchStocks_started e st Hne).
    by destruct (fetch_loop e (parseSymbols (symbolsInput st)) [] empty_world)
      as [[results|err] w].
Qed.

(** The load on mount, in any environment: exactly one request, for
    AAPL; then either one row, for AAPL, with the time set and no error,
    or no row, no time and an error message; [loading] ends false. *)
Theorem mount_fetches_default (e : env) :
  symbolsInput initial_state = String.concat ", " DEFAULT_SYMBOLS
  /\ requests (snd (fetchStocks e initial_state)) = [quote_url e "AAPL"]
  /\ loading (fst (fetchStocks e initial_state)) = false
  /\ ((exists r, rows (fst (fetchStocks e initial_state)) = [r]
                 /\ symbol r = "AAPL"
                 /\ lastUpdated (fst (fetchStocks e initial_state)) = Some (now e)
                 /\ error (fst (fetchStocks e initial_state)) = None)
      \/ (rows (fst (fetchStocks e initial_state)) = []
          /\ lastUpdated (fst (fetchStocks e initial_state)) = None
          /\ exists message, error (fst (fetchStocks e initial_state)) = Some message)).
Proof.
  split; [done|].
  assert (Hs : parseSymbols (symbolsInput initial_state) = ["AAPL"]) by done.
  rewrite fetchStocks_started by (by rewrite Hs). rewrite Hs.
  change (fetch_loop e ["AAPL"] [] empty_world)
    with (mbind (fetch_symbol e "AAPL") (fun row => ret ([] ++ [row])) empty_world).
  unfold mbind.
  destruct (fetch_symbol e "AAPL" empty_world) as [[r|err] w1] eqn:Hf.
  - pose proof (fetch_symbol_requests_any _ _ _ _ _ Hf) as Hreq.
    apply fetch_symbol_ok in Hf as [Hsym _]. simpl.
    split; [done|]. split; [done|]. left. by exists r.
  - pose proof (fetch_symbol_requests_any _ _ _ _ _ Hf) as Hreq. simpl.
    split; [done|]. split; [done|]. right. eauto.
Qed.

End CycleMore.

(** ** The request URL *)

Section Url.

Import JsString.

Lemma N_of_hex_digit (n : N) :
  (n < 16)%N ->
  N_of_ascii (hex_digit n) = if (n <? 10)%N then (48 + n)%N else (55 + n)%N.
Proof.
  intros Hn. unfold hex_digit.
  destruct (n <? 10)%N; apply N_ascii_embedding; lia.
Qed.

Lemma hex_digit_inj (a b : N) :
  (a < 16)%N -> (b < 16)%N -> hex_digit a = hex_digit b -> a = b.
Proof.
  intros Ha Hb H. apply (f_equal N_of_ascii) in H.
  rewrite !N_of_hex_digit in H by done.
  destruct (N.ltb_spec a 10), (N.ltb_spec b 10); lia.
Qed.

Lemma hex_digit_unreserved (n : N) :
  (n < 16)%N -> uri_unreserved (hex_digit n) = true.
Proof.
  intros Hn.
  assert (H : In n [0; 1; 2; 3; 4; 5; 6; 7; 8; 9; 10; 11; 12; 13; 14; 15]%N)
    by (simpl; lia).
  simpl in H. by repeat (destruct H as [<-|H]; [done|]).
Qed.

Lemma ascii_nibbles (c : ascii) :
  (N_of_ascii c / 16 < 16)%N /\ (N_of_ascii c mod 16 < 16)%N.
Proof.
  pose proof (N_ascii_bounded c). split.
  - apply N.Div0.div_lt_upper_bound. lia.
  - apply N.mod_lt. lia.
Qed.

Lemma percent_not_unreserved : uri_unreserved "%" = false.
Proof. done. Qed.

Lemma contains_elem (c : ascii) (s : string) :
  contains c s = true <-> In c (list_ascii_of_string s).
Proof.
  induction s as [|d s IH]; simpl; [split; [done|tauto]|].
  rewrite orb_true_iff, IH, Ascii.eqb_eq. tauto.
Qed.

Lemma encodeURIComponent_chars (s : string) :
  Forall (fun c => uri_unreserved c = true \/ c = "%"%char)
    (list_ascii_of_string (encodeURIComponent s)).
Proof.
  induction s as [|c s IH]; simpl; [constructor|].
  destruct (uri_unreserved c) eqn:Hc; simpl.
  - constructor; [by left|done].
  - destruct (ascii_nibbles c) as [H1 H2].
    constructor; [by right|].
    constructor; [left; by apply hex_digit_unreserved|].
    constructor; [left; by apply hex_digit_unreserved|done].
Qed.

(** An encoded symbol holds unreserved characters and percent signs
    only, so none of the characters that structure a URL: a symbol
    cannot end the parameter it is in or add another one. *)
Theorem encodeURIComponent_safe (s : string) :
  Forall (fun c => uri_unreserved c = true \/ c = "%"%char)
    (list_ascii_of_string (encodeURIComponent s))
  /\ contains "&" (encodeURIComponent s) = false
  /\ contains "=" (encodeURIComponent s) = false
  /\ contains "#" (encodeURIComponent s) = false
  /\ contains "?" (encodeURIComponent s) = false
  /\ contains "/" (encodeURIComponent s) = false
  /\ contains " " (encodeURIComponent s) = false.
Proof.
  pose proof (encodeURIComponent_chars s) as Hall.
  split; [done|].
  assert (Hno : forall c, uri_unreserved c = false -> c <> "%"%char ->
                          contains c (encodeURIComponent s) = false).
  { intros c Hc Hp. destruct (contains c (encodeURIComponent s)) eqn:E; [|done].
    apply contains_elem in E. rewrite Forall_forall in Hall.
    destruct (Hall c) as [H|H]; [by apply list_elem_of_In|congruence|done]. }
  repeat split; by apply Hno.
Qed.

Lemma encodeURIComponent_inj_before_amp (s t z z' : string) :
  encodeURIComponent s +:+ String "&" z = encodeURIComponent t +:+ String "&" z' ->
  s = t.
Proof.
  revert t. induction s as [|c s IH]; intros [|d t] H; simpl in H.
  - done.
  - destruct (uri_unreserved d) eqn:Hd; simpl in H; [|done].
    injection H as <- _. done.
  - destruct (uri_unreserved c) eqn:Hc; simpl in H; [|done].
    injection H as -> _. done.
  - destruct (uri_unreserved c) eqn:Hc, (uri_unreserved d) eqn:Hd; simpl in H.
    + injection H as -> H. f_equal. by apply IH.
    + injection H as -> _. by rewrite percent_not_unreserved in Hc.
    + injection H as <- _. by rewrite percent_not_unreserved in Hd.
    + injection H as H1 H2 H. f_equal; [|by apply IH].
      destruct (ascii_nibbles c) as [Hc1 Hc2], (ascii_nibbles d) as [Hd1 Hd2].
      apply hex_digit_inj in H1, H2; try done.
      rewrite <- (ascii_N_embedding c), <- (ascii_N_embedding d). f_equal.
      rewrite (N.div_mod (N_of_ascii c) 16), (N.div_mod (N_of_ascii d) 16) by lia.
      by rewrite H1, H2.
Qed.

Lemma append_inj_l (p a b : string) : p +:+ a = p +:+ b -> a = b.
Proof. induction p as [|c p IH]; simpl; [done|]. intros [= H]. by apply IH. Qed.

(** Two symbols have the same request URL only when they are the same
    symbol: the encoding loses nothing. *)
Theorem quote_url_injective (e : env) (s t : string) :
  (encodeURIComponent s = encodeURIComponent t <-> s = t)
  /\ (quote_url e s = quote_url e t <-> s = t).
Proof.
  split; (split; [|by intros ->]).
  - intros H. apply (encodeURIComponent_inj_before_amp s t EmptyString EmptyString).
    by rewrite H.
  - unfold quote_url. intros H. apply append_inj_l in H.
    by apply encodeURIComponent_inj_before_amp in H.
Qed.

End Url.

(** ** Sort state and headers *)

Section Headers.

(** Two clicks on the active column restore the state, a third click
    does what the first did, and from any state every column can be put
    in either direction with one or two clicks on it. *)
Theorem handleSort_reaches (st : AppState) (key : SortKey) (dirn : SortDir) :
  handleSort (sortKey st) (handleSort (sortKey st) st) = st
  /\ handleSort key (handleSort key (handleSort key st)) = handleSort key st
  /\ ((sortKey (handleSort key st) = key /\ sortDir (handleSort key st) = dirn)
      \/ (sortKey (handleSort key (handleSort key st)) = key
          /\ sortDir (handleSort key (handleSort key st)) = dirn)).
Proof.
  destruct st as [inp rs ld er k d up].
  destruct key, k, d, dirn; vm_compute; auto.
Qed.

Lemma headers_cases (st : AppState) (h : HeaderCell) :
  h ∈ headers st ->
  exists label, h = SortableHeader label (header_column h) (sortKey st) (sortDir st).
Proof.
  unfold headers. intros H.
  repeat (apply elem_of_cons in H as [->|H]; [by eauto|]).
  by apply elem_of_nil in H.
Qed.

(** Of the three sortable headers exactly one carries a direction mark:
    the one of the active column, pointing up for ascending and down
    for descending. After a click on a header, that header carries the
    mark (turned over when it carried it before, up when it did not)
    and the other headers carry none. *)
Theorem headers_show_one_arrow (st : AppState) :
  map header_column (headers st) = [BySymbol; ByPrice; ByChangePercent]
  /\ length (filter (fun h => is_Some (header_arrow h)) (headers st)) = 1%nat
  /\ (forall h, h ∈ headers st ->
        header_arrow h =
          if decide (header_column h = sortKey st)
          then Some (match sortDir st with asc => ArrowUp | desc => ArrowDown end)
          else None)
  /\ (forall h h', h ∈ headers st -> h' ∈ headers (click_header h st) ->
        header_arrow h' =
          if decide (header_column h' = header_column h)
          then Some (match header_arrow h with
                     | Some ArrowUp => ArrowDown
                     | _ => ArrowUp
                     end)
          else None).
Proof.
  split; [done|]. split.
  { unfold headers, SortableHeader. by destruct (sortKey st). }
  assert (Harrow : forall s h, h ∈ headers s ->
    header_arrow h =
      if decide (header_column h = sortKey s)
      then Some (match sortDir s with asc => ArrowUp | desc => ArrowDown end)
      else None).
  { intros s h (label & ->)%headers_cases. unfold SortableHeader. simpl.
    by destruct (decide (header_column h = sortKey s)) as [E|E];
      [rewrite bool_decide_eq_true_2|rewrite bool_decide_eq_false_2]. }
  split; [apply Harrow|].
  intros h h' Hh Hh'. rewrite (Harrow _ _ Hh'), (Harrow _ _ Hh).
  unfold click_header, handleSort.
  destruct (decide (header_column h = sortKey st)) as [E|E]; simpl.
  - rewrite E. destruct (decide (header_column h' = sortKey st)); [|done].
    by destruct (sortDir st).
  - by destruct (decide (header_column h' = header_column h)).
Qed.

End Headers.

(** ** The order the sorter produces *)

Section SortOrdered.

Context {A : Type} (c : A -> A -> Z) (P : A -> Prop).

Hypothesis c_anti : forall x y, (0 < c x y)%Z <-> (c y x < 0)%Z.
Hypothesis c_le_trans : forall x y z, P x -> P y -> P z ->
  (c x y <= 0)%Z -> (c y z <= 0)%Z -> (c x z <= 0)%Z.

Lemma sort_insert_sorted_le (x : A) (l : list A) :
  P x -> Forall P l ->
  StronglySorted (fun a b => (c a b <= 0)%Z) l ->
  StronglySorted (fun a b => (c a b <= 0)%Z) (sort_insert c x l).
Proof using c_anti c_le_trans.
  intros Hx. induction l as [|y l IH]; intros HP Hs; simpl.
  - by repeat constructor.
  - apply Forall_cons in HP as [Hy HP].
    apply StronglySorted_cons in Hs as [Hyl Hs].
    destruct (0 <? c x y)%Z eqn:E.
    + apply Z.ltb_lt in E. apply StronglySorted_cons. split; [|by apply IH].
      rewrite sort_insert_Permutation. constructor; [|done].
      apply c_anti in E. lia.
    + apply Z.ltb_ge in E. apply StronglySorted_cons.
      split; [|by apply StronglySorted_cons]. constructor; [done|].
      rewrite Forall_forall in Hyl, HP. apply Forall_forall. intros z Hz.
      apply (c_le_trans x y z); auto.
Qed.

Lemma sort_sorted_le (l : list A) :
  Forall P l -> StronglySorted (fun a b => (c a b <= 0)%Z) (sort c l).
Proof using c_anti c_le_trans.
  induction l as [|x l IH]; intros HP; simpl; [constructor|].
  apply Forall_cons in HP as [Hx HP].
  apply sort_insert_sorted_le; [done| |by apply IH].
  by rewrite sort_Permutation.
Qed.

End SortOrdered.

Lemma StronglySorted_weaken {A : Type} (R R' : A -> A -> Prop) (l : list A) :
  (forall a b, R a b -> R' a b) -> StronglySorted R l -> StronglySorted R' l.
Proof.
  intros HR. induction 1 as [|x l Hl IH Hx]; constructor; [done|].
  eapply Forall_impl; [exact Hx|]. intros y. apply HR.
Qed.

Section RowOrder.

Lemma string_lt_negtrans (s t u : string) :
  JsString.lt t s = false -> JsString.lt u t = false -> JsString.lt u s = false.
Proof.
  intros H1 H2. destruct (JsString.lt u s) eqn:E; [|done].
  destruct (decide (t = s)) as [->|Hne]; [congruence|].
  destruct (string_lt_total _ _ Hne) as [H|H]; [congruence|].
  rewrite (string_lt_trans _ _ _ E H) in H2. done.
Qed.

Lemma Qcompare_not_Lt (p q : Q) :
  (match (p ?= q)%Q with Lt => true | _ => false end) = false <-> (q <= p)%Q.
Proof.
  split.
  - intros H. apply Qnot_lt_le. intros Hlt. apply Qlt_alt in Hlt.
    unfold Qcompare in *. by rewrite Hlt in H.
  - intros Hle. destruct (p ?= q)%Q eqn:E; try done.
    apply Qlt_alt in E. by apply Qle_not_lt in Hle.
Qed.

Lemma number_lt_negtrans (x y z : JsNumber.number) :
  x <> JsNumber.NaN -> y <> JsNumber.NaN -> z <> JsNumber.NaN ->
  JsNumber.lt y x = false -> JsNumber.lt z y = false -> JsNumber.lt z x = false.
Proof.
  destruct x as [|[]|a], y as [|[]|b], z as [|[]|d]; simpl; try done.
  intros _ _ _. rewrite !Qcompare_not_Lt. intros H1 H2.
  exact (Qle_trans _ _ _ H1 H2).
Qed.

Lemma key_lt_negtrans (key : SortKey) (a b d : StockRow) :
  comparable_key key a -> comparable_key key b -> comparable_key key d ->
  key_lt key b a = false -> key_lt key d b = false -> key_lt key d a = false.
Proof.
  destruct key; simpl; intros Ha Hb Hd;
    [apply string_lt_negtrans|by apply number_lt_negtrans..].
Qed.

Lemma compareRows_le (key : SortKey) (dirn : SortDir) (a b : StockRow) :
  (compareRows key dirn a b <= 0)%Z <->
  key_lt key (if dirn is asc then b else a) (if dirn is asc then a else b) = false.
Proof.
  pose proof (proj2 (compareRows_sign key dirn a b)) as H.
  destruct (key_lt key (if dirn is asc then b else a)
              (if dirn is asc then a else b)) eqn:E.
  - split; [|done]. intros Hle. assert (0 < compareRows key dirn a b)%Z by by apply H.
    lia.
  - split; [done|]. intros _.
    destruct (Z.lt_ge_cases 0 (compareRows key dirn a b)) as [Hlt|Hge]; [|lia].
    apply H in Hlt. congruence.
Qed.

Lemma compareRows_le_trans (key : SortKey) (dirn : SortDir) (a b d : StockRow) :
  comparable_key key a -> comparable_key key b -> comparable_key key d ->
  (compareRows key dirn a b <= 0)%Z -> (compareRows key dirn b d <= 0)%Z ->
  (compareRows key dirn a d <= 0)%Z.
Proof.
  intros Ha Hb Hd. rewrite !compareRows_le. destruct dirn; intros H1 H2.
  - by apply (key_lt_negtrans key a b d).
  - by apply (key_lt_negtrans key d b a).
Qed.

(** Rows whose keys are comparable come out in order: ascending, no
    row has a key above the key of a later row; descending, none has a
    key below the key of a later row. With the permutation property
    this fixes what any stable or unstable sort may return up to the
    order of ties. *)
Theorem sortedRows_ordered (key : SortKey) (rs : list StockRow) :
  Forall (comparable_key key) rs ->
  StronglySorted (fun a b => key_lt key b a = false) (sortedRows key asc rs)
  /\ StronglySorted (fun a b => key_lt key a b = false) (sortedRows key desc rs)
  /\ sortedRows key asc rs ≡ₚ rs
  /\ sortedRows key desc rs ≡ₚ rs.
Proof.
  intros HP.
  assert (Hs : forall dirn,
    StronglySorted (fun a b => (compareRows key dirn a b <= 0)%Z)
      (sortedRows key dirn rs)).
  { intros dirn. apply (sort_sorted_le _ (comparable_key key));
      [apply compareRows_anti|apply compareRows_le_trans|done]. }
  split; [|split; [|split; apply sort_Permutation]].
  - eapply StronglySorted_weaken; [|apply (Hs asc)].
    intros a b Hab. by apply (compareRows_le key asc a b).
  - eapply StronglySorted_weaken; [|apply (Hs desc)].
    intros a b Hab. by apply (compareRows_le key desc a b).
Qed.

Lemma sortedRows_ordered_witness :
  map symbol (sortedRows ByPrice asc sample_rows)
  = ["IBM"; "ZZZZ"; "AAPL"; "QQQ"; "MSFT"]
  /\ StronglySorted (fun a b => key_lt ByPrice b a = false)
       (sortedRows ByPrice asc sample_rows).
Proof.
  split; [reflexivity|].
  refine (proj1 (sortedRows_ordered ByPrice sample_rows _)).
  repeat constructor; discriminate.
Defined.

End RowOrder.

(** ** Prices that are not numbers *)

Section NotANumber.

(** A price field that is truthy and has no numeric prefix still gives
    a row with status ok; its price is NaN, the price cell shows that
    value and not the dash, and under the price key the row ties with
    every row in both directions. *)
Theorem price_without_number_is_ok_NaN (s p : string) (r : StockRow) (dirn : SortDir) :
  JsString.truthy p = true ->
  JsNumber.parseFloat p = JsNumber.NaN ->
  let row := Row s (Some JsNumber.NaN) (Some zero) StatusOk in
  classify s (JObj [("Global Quote", JObj [("05. price", JStr p)])]) = Ok row
  /\ price_cell row = PriceCurrency JsNumber.NaN
  /\ compareRows ByPrice dirn row r = 0%Z
  /\ compareRows ByPrice dirn r row = 0%Z.
Proof.
  intros Hp Hnan row. split; [|split; [done|]].
  - unfold classify, rate_limit_note, bind. simpl. rewrite Hp. simpl. by rewrite Hnan.
  - unfold compareRows, key_lt. simpl.
    by destruct (ToNumber (price r)) as [|[]|], dirn.
Qed.

Lemma price_without_number_is_ok_NaN_witness :
  classify "IBM" (JObj [("Global Quote", JObj [("05. price", JStr "N/A")])])
  = Ok (Row "IBM" (Some JsNumber.NaN) (Some zero) StatusOk)
  /\ compareRows ByPrice asc (Row "IBM" (Some JsNumber.NaN) (Some zero) StatusOk)
       (Row "MSFT" (Some (JsNumber.Finite (JsNumber.Dec 3 0))) (Some zero) StatusOk)
     = 0%Z.
Proof.
  destruct (price_without_number_is_ok_NaN "IBM" "N/A"
              (Row "MSFT" (Some (JsNumber.Finite (JsNumber.Dec 3 0))) (Some zero) StatusOk)
              asc eq_refl eq_refl) as (H1 & _ & H2 & _).
  exact (conj H1 H2).
Defined.

End NotANumber.

(** ** Joining and normalising symbols *)

Section JoinParse.

Import JsString.

(** The pieces of a list joined with a comma and a space. *)
Lemma concat_comma_space (x : string) (xs : list string) :
  String.concat ", " (x :: xs) = String.concat "," (x :: map (String " ") xs).
Proof.
  revert x. induction xs as [|y ys IH]; intros x; [done|].
  change (x +:+ String "," (String " " (String.concat ", " (y :: ys)))
          = x +:+ String "," (String.concat "," (String " " y :: map (String " ") ys))).
  rewrite IH. f_equal. f_equal. simpl. by destruct (map (String " ") ys).
Qed.

Lemma parseSymbols_normal_form (s : string) : Forall normalised (parseSymbols s).
Proof.
  unfold parseSymbols. apply Forall_forall.
  intros x [Hx Hin]%list_elem_of_filter.
  apply list_elem_of_fmap in Hin as (p & -> & Hp).
  split; [by destruct (toUpperCase (trim p))|].
  apply normalised_piece.
  pose proof (proj2 (concat_split s)) as Hall.
  rewrite Forall_forall in Hall. by apply Hall.
Qed.

Lemma parseSymbols_join (l : list string) :
  Forall normalised l -> parseSymbols (String.concat ", " l) = l.
Proof.
  intros Hl. destruct l as [|x xs]; [done|].
  rewrite concat_comma_space. unfold parseSymbols.
  apply Forall_cons in Hl as [Hx Hxs].
  rewrite split_concat; [|constructor|done].
  - simpl map. destruct Hx as (Hne & Hup & Htrim & _).
    rewrite Htrim, Hup. rewrite filter_cons_True by by destruct x.
    f_equal. induction Hxs as [|y ys Hy Hys IH]; [done|]. simpl map.
    destruct Hy as (Hyne & Hyup & Hytrim & _).
    assert (Hsp : trim (String " " y) = trim y) by done.
    rewrite Hsp, Hytrim, Hyup. rewrite filter_cons_True by by destruct y.
    by rewrite IH.
  - by destruct Hx as (_ & _ & _ & Hc).
  - apply Forall_fmap. eapply Forall_impl; [exact Hxs|].
    intros y (_ & _ & _ & Hc). unfold comma_free in *. simpl. done.
Qed.

(** Joining normalised symbols with a comma and a space, as the initial
    input text is made from the default symbols, and normalising again
    gives the symbols back; so normalising the joined result of a
    normalisation changes nothing. *)
Theorem parseSymbols_join_round_trip (l : list string) (s : string) :
  (Forall normalised l -> parseSymbols (String.concat ", " l) = l)
  /\ parseSymbols (String.concat ", " (parseSymbols s)) = parseSymbols s
  /\ parseSymbols (String.concat ", " DEFAULT_SYMBOLS) = DEFAULT_SYMBOLS.
Proof.
  split; [apply parseSymbols_join|]. split; [|done].
  apply parseSymbols_join, parseSymbols_normal_form.
Qed.

Lemma parseSymbols_join_round_trip_witness :
  parseSymbols (String.concat ", " ["BRK.B"; "AAPL"; "BRK.B"]) = ["BRK.B"; "AAPL"; "BRK.B"].
Proof.
  refine (proj1 (parseSymbols_join_round_trip ["BRK.B"; "AAPL"; "BRK.B"] EmptyString) _).
  repeat constructor; discriminate.
Defined.

End JoinParse.

(** ** The states the application reaches and what it shows *)

Section Reachable.

Lemma classify_shape (s : string) (data : json) (r : StockRow) :
  classify s data = Ok r -> row_shape r.
Proof.
  unfold classify, rate_limit_note, bind, replace_percent, row_shape.
  intros H.
  repeat (match type of H with
          | context [match ?x with _ => _ end] => destruct x eqn:?
          end; simplify_eq/=; try done);
    repeat case_match; split; intros Hst; try done; by split.
Qed.

Lemma fetch_symbol_shape (e : env) (s : string) (w w' : world) (r : StockRow) :
  fetch_symbol e s w = (Ok r, w') -> row_shape r.
Proof.
  unfold fetch_symbol, mbind, fetch, res_json, console_log, lift, ret, throw.
  intros H.
  destruct (network e (length (requests w)) (quote_url e s)) as [err|ok body];
    [done|]. simpl in H.
  destruct ok; simpl in H.
  - destruct body as [data|err]; [|done]. simpl in H.
    injection H as H _. by eapply classify_shape.
  - injection H as <- _. by unfold row_shape.
Qed.

Lemma fetch_loop_shape (e : env) (symbols : list string) :
  forall (results : list StockRow) (w w' : world) (out : list StockRow),
    fetch_loop e symbols results w = (Ok out, w') ->
    exists new, out = results ++ new
                /\ length new = length symbols
                /\ Forall row_shape new.
Proof.
  induction symbols as [|s rest IH]; intros results w w' out H.
  - injection H as <- _. exists []. by rewrite app_nil_r.
  - simpl in H. unfold mbind in H at 1.
    destruct (fetch_symbol e s w) as [[r|err] w1] eqn:Hs; [|done].
    apply fetch_symbol_shape in Hs.
    apply IH in H as (new & -> & Hlen & Hall).
    exists (r :: new). rewrite <- app_assoc. simpl.
    split; [done|]. split; [by rewrite Hlen|by constructor].
Qed.







(** After a cycle that started the refresh button is enabled and reads
    Refresh and the loading note is gone. When the loop completed there
    is no banner, the time is shown and the table has one line per
    symbol. When it threw, the table and the time are those shown
    before, and the banner carries the message of the exception, unless
    that message is empty: then there is no banner. *)
Theorem render_after_cycle (e : env) (st : AppState) :
  parseSymbols (symbolsInput st) <> [] ->
  refresh_disabled (render (fst (fetchStocks e st))) = false
  /\ refresh_label (render (fst (fetchStocks e st))) = "Refresh"
  /\ loading_note (render (fst (fetchStocks e st))) = false
  /\ (forall results w,
        fetch_loop e (parseSymbols (symbolsInput st)) [] empty_world = (Ok results, w) ->
        banner (render (fst (fetchStocks e st))) = None
        /\ last_updated_line (render (fst (fetchStocks e st))) = Some (now e)
        /\ length (table_lines (render (fst (fetchStocks e st))))
           = length (parseSymbols (symbolsInput st)))
  /\ (forall err w,
        fetch_loop e (parseSymbols (symbolsInput st)) [] empty_world = (Throw err, w) ->
        banner (render (fst (fetchStocks e st)))
        = (if JsString.truthy (error_message err)
           then Some ("Failed to load stocks: " +:+ error_message err)
           else None)
        /\ table_lines (render (fst (fetchStocks e st))) = table_lines (render st)
        /\ last_updated_line (render (fst (fetchStocks e st)))
           = last_updated_line (render st)).
Proof.
  intros Hne. rewrite (fetchStocks_started e st Hne).
  destruct (fetch_loop e (parseSymbols (symbolsInput st)) [] empty_world)
    as [[results|err] w] eqn:Hl; simpl;
    (split; [done|]); (split; [done|]); (split; [done|]); split;
    intros ? ? [= <- <-]; try done.
  split; [done|]. split; [done|].
  rewrite length_map. unfold sortedRows.
  rewrite (Permutation_length (sort_Permutation _ _)).
  apply fetch_loop_shape in Hl as (new & -> & Hlen & _). done.
Qed.

Lemma render_after_cycle_witness :
  let silent := env_with 1 (Rejects (ErrorObject EmptyString)) in
  let loud := env_with 1 (Rejects (ErrorObject "Failed to fetch")) in
  banner (render (fst (fetchStocks silent state_ABC))) = None
  /\ table_lines (render (fst (fetchStocks silent state_ABC)))
     = table_lines (render state_ABC)
  /\ banner (render (fst (fetchStocks loud state_ABC)))
     = Some "Failed to load stocks: Failed to fetch".
Proof.
  intros silent loud.
  assert (Hne : parseSymbols (symbolsInput state_ABC) <> []) by (vm_compute; discriminate).
  destruct (render_after_cycle silent state_ABC Hne) as (_ & _ & _ & _ & Hs).
  destruct (render_after_cycle loud state_ABC Hne) as (_ & _ & _ & _ & Hl).
  destruct (Hs (ErrorObject EmptyString)
              (snd (fetch_loop silent (parseSymbols (symbolsInput state_ABC)) []
                      empty_world)) eq_refl) as (Hb & Ht & _).
  destruct (Hl (ErrorObject "Failed to fetch")
              (snd (fetch_loop loud (parseSymbols (symbolsInput state_ABC)) []
                      empty_world)) eq_refl) as (Hb' & _).
  exact (conj Hb (conj Ht Hb')).
Defined.



End Reachable.
